(** * deep-reach: the code paths of the outreach pipeline, embedded and verified

    The development follows the TypeScript sources:
    - [Hunter]   : src/tools/hunter.ts and src/tools/index.ts (people_lookup)
    - [Gmail]    : services/gmail.ts (sendEmails)
    - [Cli]      : src/cli/index.ts (sendPendingQueue)
    - [Review]   : src/agents/orchestrator.ts (promptUserForReview, review loop)
    - [Pipeline] : src/agents/orchestrator.ts (runPipeline, gatherPipelineStats)

    JavaScript values are modelled with the shape the code gives them:
    an optional or nullable string is an [option string], a thrown error
    is a constructor of the result type, numbers that count things are
    [Z] or [nat], and a file is what [JSON.parse] makes of its text.
    A string is the sequence of the bytes of its UTF-8 text (what a
    string literal of this file holds), so an ASCII character is one
    element and any other character two to four. *)

From stdpp Require Import base option strings list gmap pretty.
From Stdlib Require Import ZArith Lia.

Open Scope string_scope.

(** ** JavaScript helpers *)

Module Js.

(** Truthiness of a value of type [string | undefined | null]. *)
Definition truthy (v : option string) : bool :=
  match v with
  | Some s => negb (String.eqb s "")
  | None => false
  end.

(** [a || b] on optional strings. *)
Definition or (a b : option string) : option string :=
  if truthy a then a else b.

(** [a || "lit"]: the right operand is a string literal. *)
Definition or_lit (a : option string) (b : string) : string :=
  match a with
  | Some s => if String.eqb s "" then b else s
  | None => b
  end.

(** Interpolation of a possibly undefined string in a template. *)
Definition interp (v : option string) : string :=
  match v with
  | Some s => s
  | None => "undefined"
  end.

(** The white space removed by [String.prototype.trim] is the WhiteSpace
    and LineTerminator code points of ECMAScript, recognised here by the
    bytes of their UTF-8 form.

    One byte: U+0009 to U+000D and U+0020. *)
Definition is_space (c : Ascii.ascii) : bool :=
  let n := Ascii.nat_of_ascii c in
  (n =? 32)%nat || ((9 <=? n)%nat && (n <=? 13)%nat).

(** Two bytes: U+00A0 (C2 A0). *)
Definition is_space2 (a b : Ascii.ascii) : bool :=
  (Ascii.nat_of_ascii a =? 194)%nat && (Ascii.nat_of_ascii b =? 160)%nat.

(** Three bytes: U+1680 (E1 9A 80), U+2000 to U+200A (E2 80 80 to
    E2 80 8A), U+2028 and U+2029 (E2 80 A8, E2 80 A9), U+202F (E2 80 AF),
    U+205F (E2 81 9F), U+3000 (E3 80 80) and U+FEFF (EF BB BF). *)
Definition is_space3 (a b c : Ascii.ascii) : bool :=
  let x := Ascii.nat_of_ascii a in
  let y := Ascii.nat_of_ascii b in
  let z := Ascii.nat_of_ascii c in
  ((x =? 225) && (y =? 154) && (z =? 128))%nat
  || ((x =? 226) && (y =? 128) &&
      (((128 <=? z) && (z <=? 138)) || (z =? 168) || (z =? 169) || (z =? 175)))%nat
  || ((x =? 226) && (y =? 129) && (z =? 159))%nat
  || ((x =? 227) && (y =? 128) && (z =? 128))%nat
  || ((x =? 239) && (y =? 187) && (z =? 191))%nat.

(** What follows the first character of [s] when that character is white
    space. *)
Definition leading_space (s : string) : option string :=
  match s with
  | String a s1 =>
      if is_space a then Some s1
      else
        match s1 with
        | String b s2 =>
            if is_space2 a b then Some s2
            else
              match s2 with
              | String c s3 => if is_space3 a b c then Some s3 else None
              | EmptyString => None
              end
        | EmptyString => None
        end
  | EmptyString => None
  end.

(** [s.trimStart()]: white space characters are dropped from the front
    until another character comes first. *)
Fixpoint trim_start (s : string) : string :=
  match s with
  | String a s1 =>
      if is_space a then trim_start s1
      else
        match s1 with
        | String b s2 =>
            if is_space2 a b then trim_start s2
            else
              match s2 with
              | String c s3 => if is_space3 a b c then trim_start s3 else s
              | EmptyString => s
              end
        | EmptyString => s
        end
  | EmptyString => EmptyString
  end.

(** Whether [s] is made of white space characters only. *)
Definition is_blank (s : string) : bool :=
  String.eqb (trim_start s) EmptyString.

(** [s.trimEnd()]: [s] is cut where its white space tail begins, that is
    at the first place from which only white space follows. No character
    of a UTF-8 text ends in bytes that begin a white space character, so
    the tail starts at a character. *)
Fixpoint trim_end (s : string) : string :=
  match s with
  | String c s' => if is_blank s then EmptyString else String c (trim_end s')
  | EmptyString => EmptyString
  end.

(** [s.trim()]. *)
Definition trim (s : string) : string := trim_end (trim_start s).

(** The one-character string holding a double quote. *)
Definition dquote : string := String (Ascii.ascii_of_nat 34) EmptyString.

(** What [catch (error)] extracts:
    [error instanceof Error ? error.message : String(error)]. *)
Inductive thrown :=
| ErrorObject (message : string)
| OtherValue (repr : string).

Definition error_message (e : thrown) : string :=
  match e with
  | ErrorObject m => m
  | OtherValue r => r
  end.

End Js.

(** ** String helpers *)

Module Text.

(** The value of a decimal digit, as [\d] and [parseInt] read it. *)
Definition digit_of (c : Ascii.ascii) : option N :=
  let n := Ascii.N_of_ascii c in
  if (48 <=? n)%N && (n <=? 57)%N then Some (n - 48)%N else None.

Fixpoint repeat_char (n : nat) (c : Ascii.ascii) : string :=
  match n with
  | O => EmptyString
  | S n' => String c (repeat_char n' c)
  end.

(** [s.padStart(len, fill)] for a one-character fill. *)
Definition padStart (len : nat) (fill : Ascii.ascii) (s : string) : string :=
  repeat_char (len - String.length s) fill ++ s.

(** [s] without the prefix [p], when it starts with it. *)
Fixpoint strip_prefix (p s : string) : option string :=
  match p, s with
  | EmptyString, _ => Some s
  | String a p', String b s' =>
      if Ascii.eqb a b then strip_prefix p' s' else None
  | String _ _, EmptyString => None
  end.

(** [s.split(sep)] for a one-character separator. *)
Fixpoint split_on (sep : Ascii.ascii) (s : string) : list string :=
  match s with
  | EmptyString => [EmptyString]
  | String c s' =>
      if Ascii.eqb c sep then EmptyString :: split_on sep s'
      else
        match split_on sep s' with
        | h :: t => String c h :: t
        | [] => [String c EmptyString]
        end
  end.

(** [s.includes(p)]. *)
Fixpoint includes (p s : string) : bool :=
  match strip_prefix p s with
  | Some _ => true
  | None =>
      match s with
      | EmptyString => false
      | String _ s' => includes p s'
      end
  end.

Definition comma : Ascii.ascii := Ascii.ascii_of_nat 44.
Definition zero_char : Ascii.ascii := Ascii.ascii_of_nat 48.

End Text.

(** ** people_lookup: src/tools/hunter.ts, src/tools/index.ts *)

Module Hunter.

(** One entry of [data.emails] in the Hunter.io answer. *)
Record HunterEmail := {
  first_name : option string;
  last_name : option string;
  position : option string;
  value : option string
}.

(** [HunterResponse.data]. *)
Record HunterData := {
  emails : list HunterEmail;
  organization : option string;
  data_domain : option string
}.

(** The parameters handed to [hunterGet "domain-search"]. *)
Record RequestParams := {
  rp_domain : option string;
  rp_company : option string;
  rp_limit : Z;
  rp_department : string
}.

(** [buildHunterUrl]: the query keeps the parameters that are neither
    undefined nor the empty string, each as [String(value)]; the limit
    is a number and always kept. *)
Definition query_entry (key : string) (v : option string)
  : list (string * string) :=
  match v with
  | Some s => if String.eqb s "" then [] else [(key, s)]
  | None => []
  end.

Definition buildHunterUrl (p : RequestParams) : list (string * string) :=
  query_entry "domain" (rp_domain p) ++
  query_entry "company" (rp_company p) ++
  [("limit", pretty (rp_limit p))] ++
  query_entry "department" (Some (rp_department p)).

(** The query of the request that [people_lookup] makes for a limit, a
    domain and a company. *)
Definition request_for (limit : Z) (domain company : option string)
  : list (string * string) :=
  buildHunterUrl {| rp_domain := domain; rp_company := company;
                    rp_limit := limit; rp_department := "it" |}.

(** What [fetch] and the reading of the body can do. [errorText] of a
    response that is not ok is the string [parseHunterError] extracts. *)
Inductive FetchOutcome :=
| NetworkFailure (e : Js.thrown)
| NotOk (status : nat) (errorText : string)
| OkInvalidBody (e : Js.thrown)
| OkJson (data : option HunterData).

Record Person := {
  name : string;
  title : string;
  email : option string
}.

(** The object that the tool serialises with [JSON.stringify]. *)
Inductive LookupResult :=
| LookupFailure (error message company domain : string)
                (people : list Person) (total : nat)
| LookupSuccess (company domain : option string)
                (people : list Person) (total : nat).

Inductive ToolOutcome :=
| Raised (message : string)
| Returned (r : LookupResult).

(** The [people] property of either result. *)
Definition result_people (r : LookupResult) : list Person :=
  match r with
  | LookupFailure _ _ _ _ people _ => people
  | LookupSuccess _ _ people _ => people
  end.

(** [getHunterKey]. *)
Definition getHunterKey (env_key : option string) : string + string :=
  if Js.truthy env_key
  then inl (Js.interp env_key)
  else inr "HUNTER_API_KEY environment variable not set".

(** [Math.min(Math.max(contactsLimit, 1), 100)] with the default
    parameter value [contactsLimit = 10]. *)
Definition effective_limit (contactsLimit : option Z) : Z :=
  Z.min (Z.max (default 10%Z contactsLimit) 1) 100.

Definition to_person (e : HunterEmail) : Person :=
  {| name := Js.trim (Js.or_lit (first_name e) "" ++ " " ++
                      Js.or_lit (last_name e) "");
     title := Js.or_lit (position e) "Unknown";
     email := value e |}.

Definition no_contacts_message (who : option string) : string :=
  "Hunter.io returned 0 contacts for " ++ Js.interp who ++
  ". This company has no public email data available in Hunter's database. You MUST skip this company, save a failure report, and move on. DO NOT make up or invent any contact information.".

Section Tool.

(** The environment of one call: the API key and the network. *)
Variable env_key : option string.
Variable fetch : list (string * string) -> FetchOutcome.

(** [hunterGet]: the key is read while the arguments of [fetch] are
    built, so a missing key raises before any request is made. *)
Definition hunterGet (p : RequestParams) : string + FetchOutcome :=
  let url := buildHunterUrl p in
  match getHunterKey env_key with
  | inr err => inl err
  | inl _ => inr (fetch url)
  end.

(** The function wrapped by [tool(...)] in
    [createHunterDomainSearchTool]. *)
Definition people_lookup (contactsLimit : option Z)
           (domain company : option string) : ToolOutcome :=
  let limit := effective_limit contactsLimit in
  if negb (Js.truthy domain) && negb (Js.truthy company) then
    Raised "people_lookup requires either domain or company"
  else
    let requestParams :=
      {| rp_domain := domain; rp_company := company;
         rp_limit := limit; rp_department := "it" |} in
    match hunterGet requestParams with
    | inl err => Raised err
    | inr (NetworkFailure e) => Raised (Js.error_message e)
    | inr (NotOk status errorText) =>
        Raised ("Hunter domain search failed (" ++ pretty status ++ "): "
                ++ errorText)
    | inr (OkInvalidBody e) => Raised (Js.error_message e)
    | inr (OkJson data) =>
        let ems := from_option emails [] data in
        let org := data ≫= organization in
        let people := to_person <$> take (Z.to_nat limit) ems in
        if (length people =? 0)%nat then
          Returned (LookupFailure
            "NO_CONTACTS_FOUND"
            (no_contacts_message (Js.or org (Js.or domain company)))
            (Js.or_lit (Js.or org company) "Unknown")
            (Js.or_lit (Js.or domain (data ≫= data_domain)) "Unknown")
            [] 0)
        else
          Returned (LookupSuccess
            org (Js.or domain (data ≫= data_domain))
            people (length people))
    end.

(** [buildTools] of src/tools/index.ts: [contactsPerCompany = 10] when
    the configuration leaves it undefined, then handed to
    [createHunterDomainSearchTool]. *)
Definition buildTools_people_lookup (contactsPerCompany : option Z)
  : option string -> option string -> ToolOutcome :=
  people_lookup (Some (default 10%Z contactsPerCompany)).

End Tool.

End Hunter.

(** ** sendEmails: services/gmail.ts *)

Module Gmail.

Record Attachment := {
  filename : string;
  path : string
}.

(** [EmailMessage] (the same shape as [EmailMessageDraft] of core/types). *)
Record EmailMessage := {
  to : string;
  toName : option string;
  subject : string;
  textBody : string;
  customId : option string;
  attachments : option (list Attachment)
}.

Record EmailResult := {
  success : bool;
  messageId : option string;
  email : string;
  error : option string
}.

(** The process environment read by [getGmailConfig]. *)
Record Env := {
  GMAIL_USER : option string;
  GMAIL_APP_PASSWORD : option string
}.

Record Config := {
  user : string;
  pass : string
}.

Definition getGmailConfig (env : Env) : Js.thrown + Config :=
  if negb (Js.truthy (GMAIL_USER env)) || negb (Js.truthy (GMAIL_APP_PASSWORD env))
  then inl (Js.ErrorObject
    "Missing Gmail credentials: GMAIL_USER and GMAIL_APP_PASSWORD required")
  else inr {| user := Js.interp (GMAIL_USER env);
              pass := Js.interp (GMAIL_APP_PASSWORD env) |}.

(** The argument of [transporter.sendMail]. *)
Record MailOptions := {
  mail_from : string;
  mail_to : string;
  mail_subject : string;
  mail_text : string;
  mail_attachments : option (list Attachment)
}.

Definition mail_of (config : Config) (msg : EmailMessage) : MailOptions :=
  {| mail_from := user config;
     mail_to := if Js.truthy (toName msg)
                then Js.dquote ++ Js.interp (toName msg) ++ Js.dquote ++ " <"
                     ++ to msg ++ ">"
                else to msg;
     mail_subject := subject msg;
     mail_text := textBody msg;
     mail_attachments := attachments msg |}.

(** One call of [transporter.sendMail]: it resolves with [info] or
    rejects. *)
Inductive Delivery :=
| Delivered (info_messageId : string)
| Rejected (e : Js.thrown).

(** The outside world of the sender is the outbox: the mails handed to
    the transport so far, oldest first. The transport answers a mail
    knowing what it was handed before. *)
Definition Outbox := list MailOptions.
Definition Transport := Outbox -> MailOptions -> Delivery.

(** The optional [onProgress] callback; it returns, or throws. *)
Definition Progress := EmailResult -> nat -> nat -> option Js.thrown.

Definition notify (onProgress : option Progress)
           (result : EmailResult) (index total : nat) : option Js.thrown :=
  match onProgress with
  | Some f => f result index total
  | None => None
  end.

Inductive Completion (A : Type) :=
| Threw (e : Js.thrown)
| Done (a : A).
Arguments Threw {A} e.
Arguments Done {A} a.

Definition ok_result (msg : EmailMessage) (mid : string) : EmailResult :=
  {| success := true; messageId := Some mid; email := to msg; error := None |}.

Definition failed_result (msg : EmailMessage) (e : Js.thrown) : EmailResult :=
  {| success := false; messageId := None; email := to msg;
     error := Some (Js.error_message e) |}.

(** The result recorded for a message, given what the transport did. *)
Definition result_of (msg : EmailMessage) (d : Delivery) : EmailResult :=
  match d with
  | Delivered mid => ok_result msg mid
  | Rejected e => failed_result msg e
  end.

Section Send.

Variable smtp : Transport.
Variable onProgress : option Progress.

(** The body of [try] for one message: the results after it, or the
    results so far with what was thrown. *)
Definition attempt (config : Config) (total : nat) (msg : EmailMessage)
           (outbox : Outbox) (results : list EmailResult)
  : list EmailResult + (list EmailResult * Js.thrown) :=
  match smtp outbox (mail_of config msg) with
  | Delivered mid =>
      let result := ok_result msg mid in
      let results := (results ++ [result])%list in
      match notify onProgress result (length results - 1) total with
      | None => inl results
      | Some e => inr (results, e)
      end
  | Rejected e => inr (results, e)
  end.

(** [for (const msg of messages) { try {...} catch (error) {...} }]. *)
Fixpoint send_loop (config : Config) (total : nat)
         (messages : list EmailMessage)
         (outbox : Outbox) (results : list EmailResult)
  : Outbox * Completion (list EmailResult) :=
  match messages with
  | [] => (outbox, Done results)
  | msg :: rest =>
      let outbox' := (outbox ++ [mail_of config msg])%list in
      match attempt config total msg outbox results with
      | inl results => send_loop config total rest outbox' results
      | inr (results, e) =>
          let result := failed_result msg e in
          let results := (results ++ [result])%list in
          match notify onProgress result (length results - 1) total with
          | None => send_loop config total rest outbox' results
          | Some e' => (outbox', Threw e')
          end
      end
  end.

Definition sendEmails (env : Env) (messages : list EmailMessage)
           (outbox : Outbox) : Outbox * Completion (list EmailResult) :=
  if (length messages =? 0)%nat then (outbox, Done [])
  else
    match getGmailConfig env with
    | inl e => (outbox, Threw e)
    | inr config => send_loop config (length messages) messages outbox []
    end.

End Send.

End Gmail.

(** ** Workspace paths: cli/workspace.ts *)

Module Workspace.

Definition slash : Ascii.ascii := Ascii.ascii_of_nat 47.

(** [segments.join("/")]. *)
Fixpoint join_segments (segments : list string) : string :=
  match segments with
  | [] => EmptyString
  | [s] => s
  | s :: rest => s ++ "/" ++ join_segments rest
  end.

(** What [normalizeString] does with one segment of the path; [res]
    holds the segments kept so far, the last one first. An empty segment
    and [.] are dropped; [..] removes the segment before it, and is kept
    only above the start of a relative path. *)
Definition normalize_step (allowAboveRoot : bool) (res : list string)
           (segment : string) : list string :=
  if String.eqb segment "" || String.eqb segment "." then res
  else if String.eqb segment ".." then
    match res with
    | top :: rest =>
        if String.eqb top ".."
        then (if allowAboveRoot then segment :: res else res)
        else rest
    | [] => if allowAboveRoot then [segment] else []
    end
  else segment :: res.

Definition normalizeString (path : string) (allowAboveRoot : bool) : string :=
  join_segments
    (rev (fold_left (normalize_step allowAboveRoot)
                    (Text.split_on slash path) [])).

Definition starts_with_slash (path : string) : bool :=
  match path with
  | String c _ => Ascii.eqb c slash
  | EmptyString => false
  end.

Fixpoint ends_with_slash (path : string) : bool :=
  match path with
  | EmptyString => false
  | String c EmptyString => Ascii.eqb c slash
  | String _ rest => ends_with_slash rest
  end.

(** [path.normalize] on a POSIX system. *)
Definition normalize (path : string) : string :=
  if String.eqb path "" then "."
  else
    let isAbsolute := starts_with_slash path in
    let trailingSeparator := ends_with_slash path in
    let normalized := normalizeString path (negb isAbsolute) in
    if String.eqb normalized "" then
      if isAbsolute then "/" else if trailingSeparator then "./" else "."
    else
      (if isAbsolute then "/" else "") ++ normalized ++
      (if trailingSeparator then "/" else "").

(** [path.join(...parts)] on a POSIX system: the arguments that are not
    empty are joined by a slash and the result is normalised. *)
Definition join_all (parts : list string) : string :=
  match List.filter (λ s, negb (String.eqb s "")) parts with
  | [] => "."
  | kept => normalize (join_segments kept)
  end.

(** [join(dir, name)]. *)
Definition join (dir name : string) : string := join_all [dir; name].

Definition WORKSPACE_DIR_NAME : string := ".deepreach".

Definition resumePdfPath (root : string) : string :=
  join_all [root; WORKSPACE_DIR_NAME; "resume"; "resume.pdf"].


(** [p.split("/").pop()]: what follows the last slash. *)
Fixpoint last_segment_from (acc s : string) : string :=
  match s with
  | EmptyString => acc
  | String c s' =>
      if Ascii.eqb c slash then last_segment_from EmptyString s'
      else last_segment_from (acc ++ String c EmptyString) s'
  end.

Definition last_segment (p : string) : string :=
  last_segment_from EmptyString p.

End Workspace.

(** ** sendPendingQueue: src/cli/index.ts *)

Module Cli.

Record Contact := {
  contact_name : option string;
  contact_title : option string;
  contact_email : option string
}.

Record Company := {
  company_name : option string;
  company_domain : option string
}.

(** [DraftEntry] of core/types.ts; the code reads the file as [any]
    and tests the fields it needs, so every field may be missing. *)
Record DraftEntry := {
  id : option string;
  contact : option Contact;
  company : option Company;
  subject : option string;
  body : option string;
  personalization_notes : option string;
  status : option string;
  sentAt : option string;
  messageId : option string;
  error : option string
}.

(** drafts.json as the code sees it: missing, not parsable, parsed to
    something that is not an array, or an array of entries. *)
Inductive DraftsFile :=
| NoFile
| Unparsable (e : Js.thrown)
| NotAnArray
| Drafts (entries : list DraftEntry).

(** The answer to [clack.confirm]. *)
Inductive ConfirmAnswer :=
| ConfirmCancel
| ConfirmValue (b : bool).

(** What one invocation depends on besides the drafts file. *)
Record SendContext := {
  smtp : Gmail.Transport;
  env : Gmail.Env;
  runDir : string;
  workspaceRoot : string;
  hasResume : bool;
  skipConfirm : bool;
  confirmed : ConfirmAnswer;
  timestamp : string
}.

(** How the invocation ended: one constructor per [return] of the
    function, and one for a rejection. *)
Inductive SendReport :=
| NoDraftsFile
| NoDraftsFound
| NoPendingDrafts
| NoValidDrafts
| Cancelled
| Completed (sentCount failedCount : nat)
| Failed (e : Js.thrown).

(** [d.status === s]. *)
Definition status_is (s : string) (d : DraftEntry) : bool :=
  bool_decide (status d = Some s).

(** [drafts.filter(d => d.status === "draft")]. *)
Definition pending_drafts (drafts : list DraftEntry) : list DraftEntry :=
  filter (λ d, status_is "draft" d = true) drafts.

(** The draft-status entries of a drafts file; a file that is missing or
    holds no array has none. *)
Definition pending_of (file : DraftsFile) : list DraftEntry :=
  match file with
  | Drafts entries => pending_drafts entries
  | _ => []
  end.

(** [d.contact?.email && d.subject && d.body]. *)
Definition has_required_fields (d : DraftEntry) : bool :=
  Js.truthy (contact d ≫= contact_email) &&
  Js.truthy (subject d) && Js.truthy (body d).

Definition message_of (ctx : SendContext) (draft : DraftEntry)
  : Gmail.EmailMessage :=
  {| Gmail.to := Js.interp (contact draft ≫= contact_email);
     Gmail.toName := contact draft ≫= contact_name;
     Gmail.subject := Js.interp (subject draft);
     Gmail.textBody := Js.interp (body draft);
     Gmail.customId :=
       Some (Workspace.last_segment (runDir ctx) ++ "_" ++ Js.interp (id draft));
     Gmail.attachments :=
       if hasResume ctx
       then Some [ {| Gmail.filename := "resume.pdf";
                      Gmail.path := Workspace.resumePdfPath (workspaceRoot ctx) |} ]
       else None |}.

(** The loop that builds [messages]: a pending draft with a missing
    field is skipped, the others give one message each, in order. *)
Definition build_messages (ctx : SendContext) (pendingDrafts : list DraftEntry)
  : list Gmail.EmailMessage :=
  message_of ctx <$> filter (λ d, has_required_fields d = true) pendingDrafts.

(** The callback given to [sendEmails] only prints. *)
Definition progress_printer : Gmail.Progress := λ _ _ _, None.

(** [pendingDrafts.findIndex(pd => pd.id === draft.id)], [None] for -1. *)
Definition findIndex_by_id (pendingDrafts : list DraftEntry)
           (draft : DraftEntry) : option nat :=
  fst <$> list_find (λ pd, id pd = id draft) pendingDrafts.

Definition mark_sent (ctx : SendContext) (draft : DraftEntry)
           (result : Gmail.EmailResult) : DraftEntry :=
  {| id := id draft; contact := contact draft; company := company draft;
     subject := subject draft; body := body draft;
     personalization_notes := personalization_notes draft;
     status := Some "sent";
     sentAt := Some (timestamp ctx);
     messageId := Gmail.messageId result;
     error := error draft |}.

Definition mark_failed (draft : DraftEntry) (result : Gmail.EmailResult)
  : DraftEntry :=
  {| id := id draft; contact := contact draft; company := company draft;
     subject := subject draft; body := body draft;
     personalization_notes := personalization_notes draft;
     status := Some "failed";
     sentAt := sentAt draft;
     messageId := messageId draft;
     error := Some (Js.or_lit (Gmail.error result) "Unknown error") |}.

(** Reading [result.success] of an undefined [results[pendingIndex]]. *)
Definition undefined_result : Js.thrown :=
  Js.ErrorObject "Cannot read properties of undefined (reading 'success')".

(** The function mapped over [drafts] to make [updatedDrafts]. *)
Definition update_draft (ctx : SendContext) (pendingDrafts : list DraftEntry)
           (results : list Gmail.EmailResult) (draft : DraftEntry)
  : Js.thrown + DraftEntry :=
  match findIndex_by_id pendingDrafts draft with
  | None => inr draft
  | Some pendingIndex =>
      match results !! pendingIndex with
      | None => inl undefined_result
      | Some result =>
          if Gmail.success result
          then inr (mark_sent ctx draft result)
          else inr (mark_failed draft result)
      end
  end.

(** [drafts.map(f)] where [f] may throw: the first throw ends the map. *)
Fixpoint map_throwing {A B : Type} (f : A -> Js.thrown + B) (l : list A)
  : Js.thrown + list B :=
  match l with
  | [] => inr []
  | x :: l' =>
      match f x with
      | inl e => inl e
      | inr y =>
          match map_throwing f l' with
          | inl e => inl e
          | inr ys => inr (y :: ys)
          end
      end
  end.

Definition count_where {A : Type} (p : A -> bool) (l : list A) : nat :=
  length (List.filter p l).

(** [sendPendingQueue(runDir, workspaceRoot, opts)]: the new content of
    drafts.json, the outbox afterwards, and how the invocation ended. *)
Definition sendPendingQueue (ctx : SendContext)
           (file : DraftsFile) (outbox : Gmail.Outbox)
  : DraftsFile * Gmail.Outbox * SendReport :=
  match file with
  | NoFile => (file, outbox, NoDraftsFile)
  | Unparsable e => (file, outbox, Failed e)
  | NotAnArray => (file, outbox, NoDraftsFound)
  | Drafts [] => (file, outbox, NoDraftsFound)
  | Drafts drafts =>
      let pendingDrafts := pending_drafts drafts in
      if (length pendingDrafts =? 0)%nat then (file, outbox, NoPendingDrafts)
      else
        let messages := build_messages ctx pendingDrafts in
        if (length messages =? 0)%nat then (file, outbox, NoValidDrafts)
        else if negb (skipConfirm ctx) &&
                match confirmed ctx with
                | ConfirmCancel => true
                | ConfirmValue b => negb b
                end
        then (file, outbox, Cancelled)
        else
          match Gmail.sendEmails (smtp ctx) (Some progress_printer)
                                 (env ctx) messages outbox with
          | (outbox', Gmail.Threw e) => (file, outbox', Failed e)
          | (outbox', Gmail.Done results) =>
              match map_throwing (update_draft ctx pendingDrafts results) drafts with
              | inl e => (file, outbox', Failed e)
              | inr updatedDrafts =>
                  (Drafts updatedDrafts, outbox',
                   Completed (count_where Gmail.success results)
                             (count_where (λ r, negb (Gmail.success r)) results))
              end
          end
  end.

End Cli.

(** ** The human review of proposed companies: src/agents/orchestrator.ts *)

Module Review.

Record CompanyReviewItem := {
  name : string;
  domain : string;
  description : option string;
  why_good_fit : option string
}.

(** What a [clack] prompt resolves to: the cancel symbol or a value. *)
Inductive PromptAnswer :=
| PromptCancel
| PromptValue (v : string).

Record ReviewDecision := {
  approved : bool;
  feedback : option string
}.

Definition approve : ReviewDecision :=
  {| approved := true; feedback := None |}.

(** [promptUserForReview]: [decision] answers the approve/revise
    selection; [feedbackAnswer] answers the text prompt, which is only
    shown when the selection was neither cancelled nor "approve". *)
Definition promptUserForReview (companies : list CompanyReviewItem)
           (decision feedbackAnswer : PromptAnswer) : ReviewDecision :=
  match decision with
  | PromptCancel => approve
  | PromptValue v =>
      if String.eqb v "approve" then approve
      else
        match feedbackAnswer with
        | PromptCancel => approve
        | PromptValue fb =>
            if String.eqb fb "" then approve
            else {| approved := false; feedback := Some fb |}
        end
  end.

(** The [resume] payload of the command sent back to the agent. *)
Inductive HitlResponse :=
| Approve
| Reject (message : option string).

Definition hitlResponse_of (d : ReviewDecision) : HitlResponse :=
  if approved d then Approve else Reject (feedback d).

(** A stream event after [parseStreamEvent], with the result of
    [extractInterruptCompanies] for an "updates" chunk. *)
Inductive StreamEvent :=
| Unparsed
| MessagesEvent
| UpdatesEvent (interrupt : option (list CompanyReviewItem)).

Record LoopState := {
  stepCount : nat;
  lastApprovedCompanies : option (list CompanyReviewItem);
  responses : list HitlResponse
}.

(** The [for await] over a resumed stream: every parsed event counts
    as a step; the first interrupt carrying companies breaks out. *)
Fixpoint scan_resumed (events : list StreamEvent) (steps : nat)
  : nat * option (list CompanyReviewItem) :=
  match events with
  | [] => (steps, None)
  | Unparsed :: rest => scan_resumed rest steps
  | MessagesEvent :: rest => scan_resumed rest (S steps)
  | UpdatesEvent (Some (c :: cs)) :: rest => (S steps, Some (c :: cs))
  | UpdatesEvent _ :: rest => scan_resumed rest (S steps)
  end.

Inductive LoopEnd :=
| StreamConsumed (st : LoopState)
| AwaitingHuman (pending : list CompanyReviewItem) (st : LoopState).

Section Loop.

(** The agent: the events of the stream it produces when resumed,
    given every response delivered so far (the latest last). *)
Variable agent : list HitlResponse -> list StreamEvent.

(** [while (pendingCompanies && pendingCompanies.length > 0)]; the
    human is the list of answers still to come, one pair for each
    time the list is shown. *)
Fixpoint review_loop (human : list (PromptAnswer * PromptAnswer))
         (pendingCompanies : option (list CompanyReviewItem))
         (st : LoopState) : LoopEnd :=
  match pendingCompanies with
  | None | Some [] => StreamConsumed st
  | Some pending =>
      match human with
      | [] => AwaitingHuman pending st
      | (decision, feedbackAnswer) :: later =>
          let d := promptUserForReview pending decision feedbackAnswer in
          let hitlResponse := hitlResponse_of d in
          let approvedList :=
            if approved d then Some pending else lastApprovedCompanies st in
          let sent := (responses st ++ [hitlResponse])%list in
          let '(steps, next) := scan_resumed (agent sent) (stepCount st) in
          review_loop later next
            {| stepCount := steps;
               lastApprovedCompanies := approvedList;
               responses := sent |}
      end
  end.

End Loop.

End Review.

(** ** runPipeline and gatherPipelineStats: src/agents/orchestrator.ts *)

Module Pipeline.

(** The values [JSON.parse] produces. The fields of an object are
    listed with their keys; [field] reads the first one of a name. *)
#[warnings="-register-all"] Inductive json :=
| JNull
| JBool (b : bool)
| JNum (n : Z)
| JStr (s : string)
| JArr (items : list json)
| JObj (fields : list (string * json)).

Fixpoint field (key : string) (fields : list (string * json)) : option json :=
  match fields with
  | [] => None
  | (k, v) :: rest => if String.eqb k key then Some v else field key rest
  end.

(** A file on disk, as far as [readFileSync] and [JSON.parse] tell:
    reading or parsing throws, or the text parses to a value. *)
Inductive File :=
| Unreadable
| Content (j : json).

Record Stats := {
  companiesCandidates : nat;
  companiesSelected : nat;
  companiesResearched : nat;
  contactsFound : nat;
  contactsVerified : nat;
  draftsGenerated : nat
}.

Record PipelineResult := {
  success : bool;
  runId : string;
  stats : Stats;
  error : option string
}.

Definition zero_stats : Stats :=
  {| companiesCandidates := 0; companiesSelected := 0;
     companiesResearched := 0; contactsFound := 0;
     contactsVerified := 0; draftsGenerated := 0 |}.

Definition set_companiesSelected (n : nat) (s : Stats) : Stats :=
  {| companiesCandidates := companiesCandidates s; companiesSelected := n;
     companiesResearched := companiesResearched s;
     contactsFound := contactsFound s;
     contactsVerified := contactsVerified s;
     draftsGenerated := draftsGenerated s |}.

Definition set_companiesResearched (n : nat) (s : Stats) : Stats :=
  {| companiesCandidates := companiesCandidates s;
     companiesSelected := companiesSelected s;
     companiesResearched := n;
     contactsFound := contactsFound s;
     contactsVerified := contactsVerified s;
     draftsGenerated := draftsGenerated s |}.

Definition set_drafts (n : nat) (s : Stats) : Stats :=
  {| companiesCandidates := companiesCandidates s;
     companiesSelected := companiesSelected s;
     companiesResearched := companiesResearched s;
     contactsFound := n; contactsVerified := n; draftsGenerated := n |}.

(** [c.status === "SUCCESS"]; reading a property of [null] throws. *)
Definition status_is_success (c : json) : option bool :=
  match c with
  | JNull => None
  | JObj fields =>
      match field "status" fields with
      | Some (JStr s) => Some (String.eqb s "SUCCESS")
      | _ => Some false
      end
  | _ => Some false
  end.

(** [companies.filter(c => c.status === "SUCCESS").length], [None]
    when the callback throws. *)
Fixpoint count_success (companies : list json) : option nat :=
  match companies with
  | [] => Some 0
  | c :: rest =>
      match status_is_success c with
      | None => None
      | Some b =>
          match count_success rest with
          | None => None
          | Some n => Some (if b then S n else n)
          end
      end
  end.

(** The second half of the [try] block: drafts.json. *)
Definition read_drafts (workDir : string) (fs : gmap string File)
           (s : Stats) : Stats :=
  match fs !! Workspace.join workDir "drafts.json" with
  | Some (Content (JArr drafts)) => set_drafts (length drafts) s
  | _ => s
  end.

Definition gatherPipelineStats (workDir : string) (fs : gmap string File)
  : Stats :=
  match fs !! Workspace.join workDir "companies.json" with
  | None => read_drafts workDir fs zero_stats
  | Some Unreadable => zero_stats
  | Some (Content (JArr companies)) =>
      let s := set_companiesSelected (length companies) zero_stats in
      match count_success companies with
      | None => s
      | Some n => read_drafts workDir fs (set_companiesResearched n s)
      end
  | Some (Content _) => read_drafts workDir fs zero_stats
  end.

(** The counts the statistics are meant to report, read off the disk:
    the number of entries of a collection file, zero when the file is
    absent, unreadable or not an array; and the number of its entries
    whose status is "SUCCESS". *)
Definition entry_count (fs : gmap string File) (path : string) : nat :=
  match fs !! path with
  | Some (Content (JArr entries)) => length entries
  | _ => 0
  end.

Definition has_status_success (c : json) : bool :=
  match c with
  | JObj fields =>
      match field "status" fields with
      | Some (JStr s) => String.eqb s "SUCCESS"
      | _ => false
      end
  | _ => false
  end.

Definition success_count (fs : gmap string File) (path : string) : nat :=
  match fs !! path with
  | Some (Content (JArr entries)) => length (List.filter has_status_success entries)
  | _ => 0
  end.

Definition is_null (c : json) : bool :=
  match c with
  | JNull => true
  | _ => false
  end.

(** Whether reading companies.json inside [gatherPipelineStats] runs into
    an exception: the file is there but cannot be read or parsed, or it
    holds an array with a [null] entry. *)
Definition companies_read_raises (fs : gmap string File) (path : string) : bool :=
  match fs !! path with
  | Some Unreadable => true
  | Some (Content (JArr entries)) => existsb is_null entries
  | _ => false
  end.

Section Run.

(** The agent is built before [try]. Everything inside [try] before
    the statistics is its run: the agent is streamed, with the human
    review, and writes the artifacts; the run ends normally or something
    is thrown, and either way the disk is left in some state. *)
Variable run_agent : string -> gmap string File ->
                     gmap string File * option Js.thrown.

Definition runPipeline (projectRoot runId : string)
           (fs : gmap string File) : gmap string File * PipelineResult :=
  let workDir := projectRoot ++ "/runs/" ++ runId in
  match run_agent runId fs with
  | (fs', Some e) =>
      (fs', {| success := false; runId := runId; stats := zero_stats;
               error := Some (Js.error_message e) |})
  | (fs', None) =>
      (fs', {| success := true; runId := runId;
               stats := gatherPipelineStats workDir fs';
               error := None |})
  end.

End Run.

End Pipeline.

(** ** Sample inputs used by the examples below *)

Module Samples.



Definition fetch_one : list (string * string) -> Hunter.FetchOutcome :=
  λ _, Hunter.OkJson (Some {| Hunter.emails :=
                                [ {| Hunter.first_name := Some "Ada";
                                     Hunter.last_name := None;
                                     Hunter.position := None;
                                     Hunter.value := Some "ada@acme.com" |};
                                  {| Hunter.first_name := Some "Bob";
                                     Hunter.last_name := Some "Roe";
                                     Hunter.position := Some "SRE";
                                     Hunter.value := Some "bob@acme.com" |} ];
                              Hunter.organization := Some "Acme";
                              Hunter.data_domain := Some "acme.com" |}).

(** Mail: an environment with and without credentials, a transport that
    delivers everything, one that rejects everything, and one that
    rejects the first mail it ever sees and delivers the later ones. *)
Definition gmail_env : Gmail.Env :=
  {| Gmail.GMAIL_USER := Some "me@gmail.com";
     Gmail.GMAIL_APP_PASSWORD := Some "app-password" |}.

Definition gmail_env_missing : Gmail.Env :=
  {| Gmail.GMAIL_USER := Some "me@gmail.com";
     Gmail.GMAIL_APP_PASSWORD := None |}.

Definition gmail_config : Gmail.Config :=
  {| Gmail.user := "me@gmail.com"; Gmail.pass := "app-password" |}.

Definition smtp_delivers : Gmail.Transport :=
  λ outbox mail, Gmail.Delivered ("<id-" ++ Gmail.mail_to mail ++ ">").

Definition smtp_rejects : Gmail.Transport :=
  λ outbox mail, Gmail.Rejected (Js.ErrorObject "Mailbox unavailable").

Definition smtp_rejects_first : Gmail.Transport :=
  λ outbox mail,
    match outbox with
    | [] => Gmail.Rejected (Js.ErrorObject "Connection timeout")
    | _ => Gmail.Delivered ("<id-" ++ Gmail.mail_to mail ++ ">")
    end.

Definition message_ann : Gmail.EmailMessage :=
  {| Gmail.to := "ann@acme.com"; Gmail.toName := Some "Ann";
     Gmail.subject := "Hello"; Gmail.textBody := "Hi Ann";
     Gmail.customId := Some "run0001_acme_ann"; Gmail.attachments := None |}.

Definition message_bob : Gmail.EmailMessage :=
  {| Gmail.to := "bob@acme.com"; Gmail.toName := None;
     Gmail.subject := "Hello"; Gmail.textBody := "Hi Bob";
     Gmail.customId := Some "run0001_acme_bob"; Gmail.attachments := None |}.

(** Drafts: two complete drafts, one without a subject, and the
    context of a send invocation with the confirmation skipped. *)
Definition draft_ann : Cli.DraftEntry :=
  {| Cli.id := Some "acme_ann";
     Cli.contact := Some {| Cli.contact_name := Some "Ann";
                            Cli.contact_title := Some "Engineer";
                            Cli.contact_email := Some "ann@acme.com" |};
     Cli.company := Some {| Cli.company_name := Some "Acme";
                            Cli.company_domain := Some "acme.com" |};
     Cli.subject := Some "Hello"; Cli.body := Some "Hi Ann";
     Cli.personalization_notes := None;
     Cli.status := Some "draft";
     Cli.sentAt := None; Cli.messageId := None; Cli.error := None |}.

Definition draft_bob : Cli.DraftEntry :=
  {| Cli.id := Some "acme_bob";
     Cli.contact := Some {| Cli.contact_name := Some "Bob";
                            Cli.contact_title := Some "SRE";
                            Cli.contact_email := Some "bob@acme.com" |};
     Cli.company := Some {| Cli.company_name := Some "Acme";
                            Cli.company_domain := Some "acme.com" |};
     Cli.subject := Some "Hello"; Cli.body := Some "Hi Bob";
     Cli.personalization_notes := None;
     Cli.status := Some "draft";
     Cli.sentAt := None; Cli.messageId := None; Cli.error := None |}.

Definition draft_ann_no_subject : Cli.DraftEntry :=
  {| Cli.id := Some "acme_ann";
     Cli.contact := Cli.contact draft_ann;
     Cli.company := Cli.company draft_ann;
     Cli.subject := None; Cli.body := Some "Hi Ann";
     Cli.personalization_notes := None;
     Cli.status := Some "draft";
     Cli.sentAt := None; Cli.messageId := None; Cli.error := None |}.

Definition send_ctx (transport : Gmail.Transport) : Cli.SendContext :=
  {| Cli.smtp := transport;
     Cli.env := gmail_env;
     Cli.runDir := "/home/me/outreach/runs/run0001";
     Cli.workspaceRoot := "/home/me/outreach";
     Cli.hasResume := false;
     Cli.skipConfirm := true;
     Cli.confirmed := Cli.ConfirmValue true;
     Cli.timestamp := "2025-01-01T00:00:00.000Z" |}.

Definition mail_ann : Gmail.MailOptions :=
  Gmail.mail_of gmail_config (Cli.message_of (send_ctx smtp_delivers) draft_ann).

Definition mail_bob : Gmail.MailOptions :=
  Gmail.mail_of gmail_config (Cli.message_of (send_ctx smtp_delivers) draft_bob).

Definition draft_ann_failed : Cli.DraftEntry :=
  {| Cli.id := Some "acme_ann";
     Cli.contact := Cli.contact draft_ann;
     Cli.company := Cli.company draft_ann;
     Cli.subject := Some "Hello"; Cli.body := Some "Hi Ann";
     Cli.personalization_notes := None;
     Cli.status := Some "failed";
     Cli.sentAt := None; Cli.messageId := None;
     Cli.error := Some "Connection timeout" |}.

(** Disks: a run directory whose companies.json has a null entry, one
    whose companies.json cannot be parsed, and a healthy one. *)
Definition work_dir : string := "/home/me/outreach/runs/run0001".

Definition success_company : Pipeline.json :=
  Pipeline.JObj [("name", Pipeline.JStr "Acme");
                 ("domain", Pipeline.JStr "acme.com");
                 ("status", Pipeline.JStr "SUCCESS")].

Definition failed_company : Pipeline.json :=
  Pipeline.JObj [("name", Pipeline.JStr "Beta");
                 ("domain", Pipeline.JStr "beta.io");
                 ("status", Pipeline.JStr "FAILED");
                 ("failureReason", Pipeline.JStr "No contacts found")].

Definition one_draft : Pipeline.json :=
  Pipeline.JArr [Pipeline.JObj [("id", Pipeline.JStr "acme_ann");
                                ("status", Pipeline.JStr "draft")]].

Definition disk_null_entry : gmap string Pipeline.File :=
  <[Workspace.join work_dir "companies.json" :=
      Pipeline.Content (Pipeline.JArr [success_company; Pipeline.JNull])]>
  (<[Workspace.join work_dir "drafts.json" := Pipeline.Content one_draft]> ∅).

Definition disk_broken_companies : gmap string Pipeline.File :=
  <[Workspace.join work_dir "companies.json" := Pipeline.Unreadable]>
  (<[Workspace.join work_dir "drafts.json" := Pipeline.Content one_draft]> ∅).

Definition disk_healthy : gmap string Pipeline.File :=
  <[Workspace.join work_dir "companies.json" :=
      Pipeline.Content (Pipeline.JArr [success_company; failed_company])]>
  (<[Workspace.join work_dir "drafts.json" := Pipeline.Content one_draft]> ∅).


Definition agent_completes (runId : string) (fs : gmap string Pipeline.File)
  : gmap string Pipeline.File * option Js.thrown :=
  (disk_healthy, None).

Definition acme : Review.CompanyReviewItem :=
  {| Review.name := "Acme"; Review.domain := "acme.com";
     Review.description := None; Review.why_good_fit := None |}.

(** U+00A0 and U+3000 in UTF-8, and a list typed with them around an
    item. *)
Definition nbsp : string :=
  String (Ascii.ascii_of_nat 194) (String (Ascii.ascii_of_nat 160) EmptyString).

Definition ideographic_space : string :=
  String (Ascii.ascii_of_nat 227)
    (String (Ascii.ascii_of_nat 128)
       (String (Ascii.ascii_of_nat 128) EmptyString)).

Definition industries_typed : string :=
  " AI/ML," ++ nbsp ++ "Developer Tools" ++ ideographic_space ++ " ,"
  ++ nbsp ++ ", Fintech".

End Samples.

(** ** generateRunId: src/cli/index.ts *)

Module RunId.

(** An entry of [readdirSync(runsPath, { withFileTypes: true })]. *)
Record Dirent := {
  name : string;
  isDirectory : bool
}.

(** [name.match(/^run(\d{4})$/)] followed by [parseInt(match[1], 10)]. *)
Definition match_run (n : string) : option N :=
  match Text.strip_prefix "run" n with
  | Some (String a (String b (String c (String d EmptyString)))) =>
      match Text.digit_of a, Text.digit_of b, Text.digit_of c, Text.digit_of d with
      | Some x, Some y, Some z, Some w =>
          Some (1000 * x + 100 * y + 10 * z + w)%N
      | _, _, _, _ => None
      end
  | _ => None
  end.

(** One turn of the loop over the directory entries. *)
Definition scan_entry (maxNum : N) (entry : Dirent) : N :=
  if isDirectory entry then
    match match_run (name entry) with
    | Some num => if (maxNum <? num)%N then num else maxNum
    | None => maxNum
    end
  else maxNum.

Definition max_run (entries : list Dirent) : N :=
  fold_left scan_entry entries 0%N.

(** [generateRunId(root)]; [listing] is the content of the runs directory,
    [None] when the directory does not exist. *)
Definition generateRunId (listing : option (list Dirent)) : string :=
  let maxNum := from_option max_run 0%N listing in
  let nextNum := (maxNum + 1)%N in
  "run" ++ Text.padStart 4 Text.zero_char (pretty nextNum).

End RunId.

(** ** findWorkspaceRoot: cli/workspace.ts *)

Module WorkspaceRoot.

(** A normalised absolute path, as its segments from the file system
    root: [path.dirname] drops the last segment and leaves the root, the
    empty list, as it is; [path.join(dir, name)] adds a segment. *)
Definition dirname (dir : list string) : list string := removelast dir.

Definition join (dir : list string) (name : string) : list string :=
  (dir ++ [name])%list.

Section Walk.

(** [existsSync]. *)
Variable existsSync : list string -> bool.

(** The [while (true)] loop, on the segments of [dir] innermost first:
    each turn tests the directory and moves to its parent, and stops at
    the root, which is its own parent. *)
Fixpoint walk_up (rev_dir : list string) : option (list string) :=
  if existsSync (join (rev rev_dir) Workspace.WORKSPACE_DIR_NAME)
  then Some (rev rev_dir)
  else
    match rev_dir with
    | [] => None
    | _ :: parent => walk_up parent
    end.

Definition findWorkspaceRoot (from : list string) : option (list string) :=
  walk_up (rev from).

End Walk.

End WorkspaceRoot.

(** ** assignToolsToSubagent: src/agents/subagents.ts *)

Module Subagents.

(** [SubagentDefinition]; the prompt text, which no function reads, is
    left out. *)
Record SubagentDefinition := {
  name : string;
  description : string;
  tools : list string
}.

Definition SUBAGENT_DEFINITIONS : list SubagentDefinition :=
  [ {| name := "company-flow";
       description := "Handles full outreach flow for a single company: research, contacts, and draft emails";
       tools := ["web_search"; "people_lookup"] |};
    {| name := "contact-personalization";
       description := "Researches one contact, finds relatable hooks by comparing to student profile, and drafts a personalized email";
       tools := ["web_search"] |} ].

(** [definitions.find(s => s.name === subagentName)]. *)
Definition find_definition (definitions : list SubagentDefinition)
           (subagentName : string) : option SubagentDefinition :=
  List.find (λ s, String.eqb (name s) subagentName) definitions.

Section Assign.

(** A tool, of which only the name is read. *)
Variable Tool : Type.
Variable tool_name : Tool -> string.

Definition assignToolsToSubagent (subagentName : string)
           (availableTools : list Tool) : list Tool :=
  match find_definition SUBAGENT_DEFINITIONS subagentName with
  | None => []
  | Some definition =>
      List.filter
        (λ tool, existsb (String.eqb (tool_name tool)) (tools definition))
        availableTools
  end.

End Assign.

End Subagents.

(** ** Stream events and interrupts: src/agents/orchestrator.ts *)

Module Stream.

(** A value read in a chunk: a parsed value, or [None] for [undefined]. *)
Definition truthy (v : option Pipeline.json) : bool :=
  match v with
  | None => false
  | Some Pipeline.JNull => false
  | Some (Pipeline.JBool b) => b
  | Some (Pipeline.JNum n) => negb (n =? 0)%Z
  | Some (Pipeline.JStr s) => negb (String.eqb s "")
  | Some (Pipeline.JArr _) => true
  | Some (Pipeline.JObj _) => true
  end.

(** [v?.key] for the keys read here (value, actionRequests, name, args,
    companies): the field of an object, undefined on anything else. *)
Definition prop (key : string) (v : option Pipeline.json)
  : option Pipeline.json :=
  match v with
  | Some (Pipeline.JObj fields) => Pipeline.field key fields
  | _ => None
  end.

(** [a || b]. *)
Definition or (a b : option Pipeline.json) : option Pipeline.json :=
  if truthy a then a else b.

(** [parseStreamEvent]: the mode and the chunk of a 2- or 3-element event
    tuple, [None] for [null]. *)
Definition parseStreamEvent (event : list Pipeline.json)
  : option (Pipeline.json * Pipeline.json) :=
  match event with
  | [_; mode; chunk] => Some (mode, chunk)
  | [mode; chunk] => Some (mode, chunk)
  | _ => None
  end.

(** What [extractInterruptCompanies] does: it returns the companies, or
    [null], or the [in] operator throws on a chunk that is a number, a
    string or [true]. *)
Inductive Extracted :=
| InThrows
| NoInterrupt
| Companies (companies : Pipeline.json).

(** [action?.name === "review_companies" && action?.args?.companies]. *)
Definition is_review_request (action : Pipeline.json) : bool :=
  match prop "name" (Some action) with
  | Some (Pipeline.JStr n) =>
      String.eqb n "review_companies" &&
      truthy (prop "companies" (prop "args" (Some action)))
  | _ => false
  end.

(** The [for] loop over the action requests. *)
Fixpoint first_review_request (requests : list Pipeline.json) : Extracted :=
  match requests with
  | [] => NoInterrupt
  | action :: rest =>
      if is_review_request action
      then match prop "companies" (prop "args" (Some action)) with
           | Some companies => Companies companies
           | None => NoInterrupt
           end
      else first_review_request rest
  end.

Definition extractInterruptCompanies (chunk : Pipeline.json) : Extracted :=
  if negb (truthy (Some chunk)) then NoInterrupt
  else
    match chunk with
    | Pipeline.JObj fields =>
        match Pipeline.field "__interrupt__" fields with
        | Some (Pipeline.JArr (info :: _)) =>
            let value := prop "value" (Some info) in
            let requests :=
              or (prop "actionRequests" value)
                 (or value (Some (Pipeline.JArr []))) in
            match requests with
            | Some (Pipeline.JArr actions) => first_review_request actions
            | Some request => first_review_request [request]
            | None => NoInterrupt
            end
        | _ => NoInterrupt
        end
    | Pipeline.JArr _ => NoInterrupt
    | _ => InThrows
    end.

(** The interrupt chunk the agent library emits for pending tool calls,
    and the older shape whose value is the list of requests itself. *)
Definition review_action (companies : Pipeline.json) : Pipeline.json :=
  Pipeline.JObj [("name", Pipeline.JStr "review_companies");
                 ("args", Pipeline.JObj [("companies", companies)])].

Definition interrupt_chunk (before : list Pipeline.json)
           (companies : Pipeline.json) (after : list Pipeline.json)
  : Pipeline.json :=
  Pipeline.JObj
    [("__interrupt__",
      Pipeline.JArr
        [Pipeline.JObj
           [("value",
             Pipeline.JObj
               [("actionRequests",
                 Pipeline.JArr (before ++ review_action companies :: after))])]])].

Definition bare_interrupt_chunk (companies : Pipeline.json) : Pipeline.json :=
  Pipeline.JObj
    [("__interrupt__",
      Pipeline.JArr [Pipeline.JObj [("value", review_action companies)]])].

Section Consume.

Variable agent : list Review.HitlResponse -> list Review.StreamEvent.

(** [stepCount++]. *)
Definition step (st : Review.LoopState) : Review.LoopState :=
  {| Review.stepCount := S (Review.stepCount st);
     Review.lastApprovedCompanies := Review.lastApprovedCompanies st;
     Review.responses := Review.responses st |}.

(** [consumeStream]: the main stream is read up to its first interrupt
    that carries companies; the review loop then takes over and the
    function returns without reading the rest of the main stream. *)
Fixpoint consumeStream (stream : list Review.StreamEvent)
         (human : list (Review.PromptAnswer * Review.PromptAnswer))
         (st : Review.LoopState) : Review.LoopEnd :=
  match stream with
  | [] => Review.StreamConsumed st
  | Review.Unparsed :: rest => consumeStream rest human st
  | Review.MessagesEvent :: rest => consumeStream rest human (step st)
  | Review.UpdatesEvent (Some (c :: cs)) :: _ =>
      Review.review_loop agent human (Some (c :: cs)) (step st)
  | Review.UpdatesEvent _ :: rest => consumeStream rest human (step st)
  end.

End Consume.

(** The state in which [runPipeline] starts to stream. *)
Definition initial_state : Review.LoopState :=
  {| Review.stepCount := 0;
     Review.lastApprovedCompanies := None;
     Review.responses := [] |}.

Definition end_state (e : Review.LoopEnd) : Review.LoopState :=
  match e with
  | Review.StreamConsumed st => st
  | Review.AwaitingHuman _ st => st
  end.

(** The response that an answer of the human makes; the companies on
    display play no part in it. *)
Definition response_to (answer : Review.PromptAnswer * Review.PromptAnswer)
  : Review.HitlResponse :=
  Review.hitlResponse_of
    (Review.promptUserForReview [] (fst answer) (snd answer)).

(** Whether an event is an interrupt that carries companies. *)
Definition is_interrupt (e : Review.StreamEvent) : bool :=
  match e with
  | Review.UpdatesEvent (Some (_ :: _)) => true
  | _ => false
  end.

Definition is_parsed (e : Review.StreamEvent) : bool :=
  match e with
  | Review.Unparsed => false
  | _ => true
  end.

(** The list on display when the human gives answer number [i] (from
    0) to a review loop started in [st] with [pending]: the pending list
    at first, afterwards the interrupt of the stream that the agent
    produces once it has the first [i] responses. *)
Definition shown_before (agent : list Review.HitlResponse -> list Review.StreamEvent)
           (st : Review.LoopState)
           (pending : option (list Review.CompanyReviewItem))
           (human : list (Review.PromptAnswer * Review.PromptAnswer))
           (i : nat) : option (list Review.CompanyReviewItem) :=
  match i with
  | 0 => pending
  | S _ =>
      snd (Review.scan_resumed
             (agent (Review.responses st ++ (response_to <$> take i human))%list)
             0)
  end.

End Stream.

(** ** The lists typed in the setup wizard: cli/init.ts *)

Module Init.

(** [raw ? raw.split(",").map(s => s.trim()).filter(Boolean) : []]. *)
Definition parse_list (raw : string) : list string :=
  if String.eqb raw "" then []
  else List.filter (λ s, negb (String.eqb s ""))
                   (Js.trim <$> Text.split_on Text.comma raw).

End Init.

(** ** web_search: src/tools/web-search.ts *)

Module WebSearch.

(** What [tavilySearch._call] resolves to. *)
Inductive SearchResult :=
| Falsy
| TextResult (text : string)
| ObjectResult (stringified : string).

Inductive CallOutcome :=
| CallThrows (e : Js.thrown)
| CallReturns (result : SearchResult).

(** The dynamic [import("@langchain/tavily")]. *)
Inductive ImportOutcome :=
| ImportThrows (e : Js.thrown)
| Imported.

Record SearchArgs := {
  maxResults : Z;
  tavilyApiKey : string;
  topic : string;
  searchDepth : string;
  query : string
}.

Section Tool.

Variable env_key : option string.
Variable import : ImportOutcome.
Variable tavily : SearchArgs -> CallOutcome.

Definition on_error (e : Js.thrown) : string :=
  let msg := Js.error_message e in
  if Text.includes "Cannot find package" msg
  then "Error: @langchain/tavily package not installed. Run: bun add @langchain/tavily"
  else "Error performing web search: " ++ msg.

(** The function wrapped by [tool(...)] in [createWebSearchTool]. *)
Definition web_search (q : string) (max_results : option Z)
           (search_topic : option string) : string :=
  if negb (Js.truthy env_key)
  then "Error: TAVILY_API_KEY environment variable not set. Cannot perform web search."
  else
    match import with
    | ImportThrows e => on_error e
    | Imported =>
        match tavily {| maxResults := default 3%Z max_results;
                        tavilyApiKey := Js.interp env_key;
                        topic := default "general" search_topic;
                        searchDepth := "basic";
                        query := q |} with
        | CallThrows e => on_error e
        | CallReturns Falsy => "No results found for this search query."
        | CallReturns (TextResult text) =>
            if String.eqb text "" then "No results found for this search query."
            else text
        | CallReturns (ObjectResult stringified) => stringified
        end
    end.

End Tool.

End WebSearch.

(** * Properties *)

Open Scope list_scope.

(** ** people_lookup *)

Section HunterFacts.

Import Hunter.

Variable env_key : option string.
Variable fetch : list (string * string) -> FetchOutcome.

Lemma effective_limit_bounds (contactsLimit : option Z) :
  (1 <= effective_limit contactsLimit <= 100)%Z.
Proof. unfold effective_limit. lia. Qed.

Lemma effective_limit_default : effective_limit None = 10%Z.
Proof. reflexivity. Qed.

Lemma request_carries_limit (limit : Z) (domain company : option string) :
  ("limit", pretty limit) ∈ request_for limit domain company.
Proof.
  unfold request_for, buildHunterUrl; cbn [rp_limit].
  rewrite !elem_of_app. right; right; left. apply list_elem_of_here.
Qed.

(** Truncating to a limit of at least one keeps a contact whenever the
    backend sent one. *)
Lemma take_limit_nil (limit : Z) (ems : list HunterEmail) :
  (1 <= limit)%Z ->
  to_person <$> take (Z.to_nat limit) ems = [] <-> ems = [].
Proof.
  intros Hl. split.
  - destruct ems as [|e ems]; [done|].
    destruct (Z.to_nat limit) eqn:E; [lia|]. discriminate.
  - intros ->. by rewrite take_nil.
Qed.

(** With a domain or a company, a key and a parsed answer, the tool
    returns, and what it returns is decided by the truncated list. *)
Lemma people_lookup_returns (contactsLimit : option Z)
      (domain company : option string) (data : option HunterData) :
  Js.truthy domain || Js.truthy company = true ->
  Js.truthy env_key = true ->
  fetch (request_for (effective_limit contactsLimit) domain company)
    = OkJson data ->
  exists r,
    people_lookup env_key fetch contactsLimit domain company = Returned r /\
    result_people r =
      to_person <$> take (Z.to_nat (effective_limit contactsLimit))
                         (from_option emails [] data).
Proof.
  intros Hin Hkey Hfetch. unfold people_lookup, hunterGet, getHunterKey.
  fold (request_for (effective_limit contactsLimit) domain company).
  rewrite Hkey, Hfetch.
  replace (negb (Js.truthy domain) && negb (Js.truthy company)) with false
    by (destruct (Js.truthy domain), (Js.truthy company); done).
  cbn [negb andb].
  destruct (to_person <$> _) as [|p ps] eqn:E; cbn [length Nat.eqb].
  - eexists; split; [reflexivity|]. done.
  - eexists; split; [reflexivity|]. done.
Qed.

(** Every way the tool can end, with what made it end so. *)
Lemma people_lookup_cases (contactsLimit : option Z)
      (domain company : option string) :
  let limit := effective_limit contactsLimit in
  let url := request_for limit domain company in
  match people_lookup env_key fetch contactsLimit domain company with
  | Returned (LookupSuccess _ _ people total) =>
      people ≠ [] /\ total = length people /\
      exists data, fetch url = OkJson data /\
        people = to_person <$> take (Z.to_nat limit) (from_option emails [] data)
  | Returned (LookupFailure err _ _ _ people total) =>
      err = "NO_CONTACTS_FOUND" /\ people = [] /\ total = 0 /\
      exists data, fetch url = OkJson data /\ from_option emails [] data = []
  | Raised _ =>
      (Js.truthy domain = false /\ Js.truthy company = false) \/
      Js.truthy env_key = false \/
      forall data, fetch url ≠ OkJson data
  end.
Proof.
  intros limit url. unfold people_lookup, hunterGet, getHunterKey.
  fold limit. fold (request_for limit domain company). fold url.
  destruct (Js.truthy domain) eqn:Hd, (Js.truthy company) eqn:Hc;
    cbn [negb andb]; try (left; done);
    (destruct (Js.truthy env_key) eqn:Hk; [|right; left; done]);
    (destruct (fetch url) as [e|st txt|e|data] eqn:Hf;
     [right; right; intros d; discriminate ..|]);
    (destruct (to_person <$> take (Z.to_nat limit) (from_option emails [] data))
       as [|p ps] eqn:E; cbn [length Nat.eqb];
     [ repeat split; try done; exists data; split; [done|];
       by apply (take_limit_nil limit); [apply effective_limit_bounds|]
     | repeat split; try done; exists data; done ]).
Qed.

End HunterFacts.




(** C8: for every configured contacts-per-company value n the limit is
    min(max(n, 1), 100), and 10 when nothing is configured: the request to
    the backend carries that limit, and the people returned are the
    backend's contacts truncated to it. *)
Theorem lookup_limit_is_clamped
        (contactsPerCompany : option Z) (env_key : option string)
        (fetch : list (string * string) -> Hunter.FetchOutcome)
        (domain company : option string) (data : option Hunter.HunterData) :
  let limit := match contactsPerCompany with
               | Some n => Z.min (Z.max n 1) 100
               | None => 10%Z
               end in
  Js.truthy domain || Js.truthy company = true ->
  Js.truthy env_key = true ->
  fetch (Hunter.request_for limit domain company) = Hunter.OkJson data ->
  ("limit", pretty limit) ∈ Hunter.request_for limit domain company /\
  exists r,
    Hunter.buildTools_people_lookup env_key fetch contactsPerCompany
                                    domain company = Hunter.Returned r /\
    Hunter.result_people r =
      Hunter.to_person <$>
        take (Z.to_nat limit) (from_option Hunter.emails [] data).
Proof.
  intros limit Hin Hkey Hf. split; [apply request_carries_limit|].
  unfold Hunter.buildTools_people_lookup.
  assert (Hunter.effective_limit (Some (default 10%Z contactsPerCompany)) = limit)
    as Hl by (unfold Hunter.effective_limit, limit;
              destruct contactsPerCompany; cbn; lia).
  rewrite <- Hl in Hf |- *.
  by apply people_lookup_returns.
Qed.

Lemma lookup_limit_is_clamped_witness :
  ("limit", "100") ∈ Hunter.request_for 100 (Some "acme.com") None /\
  exists r,
    Hunter.buildTools_people_lookup (Some "key") Samples.fetch_one (Some 250%Z)
                                    (Some "acme.com") None = Hunter.Returned r /\
    length (Hunter.result_people r) = 2.
Proof.
  destruct (lookup_limit_is_clamped (Some 250%Z) (Some "key") Samples.fetch_one
              (Some "acme.com") None _ eq_refl eq_refl eq_refl)
    as [Hq (r & Hr & Hp)].
  split; [exact Hq|]. exists r. split; [exact Hr|]. rewrite Hp. reflexivity.
Defined.

(** ** sendEmails *)

Section GmailFacts.

Import Gmail.

Variable smtp : Transport.
Variable onProgress : option Progress.

(** The callback, when there is one, returns. *)
Hypothesis progress_returns :
  forall r i t, notify onProgress r i t = None.

Lemma attempt_result (config : Config) (total : nat) (msg : EmailMessage)
      (outbox : Outbox) (results : list EmailResult) :
  match attempt smtp onProgress config total msg outbox results with
  | inl results' =>
      results' = results ++ [result_of msg (smtp outbox (mail_of config msg))]
  | inr (results', e) =>
      results' = results /\
      failed_result msg e = result_of msg (smtp outbox (mail_of config msg))
  end.
Proof.
  unfold attempt. destruct (smtp outbox (mail_of config msg)) as [mid|e]; cbn.
  - by rewrite progress_returns.
  - done.
Qed.

(** The loop hands every message to the transport, in order, and adds
    one result for each. *)
Lemma send_loop_all (config : Config) (total : nat)
      (messages : list EmailMessage) :
  forall (outbox : Outbox) (results : list EmailResult),
  exists rs,
    send_loop smtp onProgress config total messages outbox results
    = (outbox ++ (mail_of config <$> messages), Done (results ++ rs)) /\
    length rs = length messages /\
    forall i msg, messages !! i = Some msg ->
      rs !! i = Some (result_of msg
                        (smtp (outbox ++ (mail_of config <$> take i messages))
                              (mail_of config msg))).
Proof.
  induction messages as [|m rest IH]; intros outbox results.
  - exists []. cbn. rewrite !app_nil_r. by repeat split.
  - cbn [send_loop].
    pose proof (attempt_result config total m outbox results) as Ha.
    destruct (attempt smtp onProgress config total m outbox results)
      as [results'|[results' e]].
    + subst results'.
      destruct (IH (outbox ++ [mail_of config m])
                   (results ++ [result_of m (smtp outbox (mail_of config m))]))
        as (rs & Heq & Hlen & Hnth).
      exists (result_of m (smtp outbox (mail_of config m)) :: rs).
      rewrite Heq, <- !app_assoc. cbn. repeat split; [by rewrite Hlen|].
      intros [|i] msg Hi; cbn in Hi |- *.
      * injection Hi as <-. by rewrite app_nil_r.
      * specialize (Hnth i msg Hi). rewrite <- app_assoc in Hnth. exact Hnth.
    + destruct Ha as [-> Hres]. rewrite progress_returns, Hres.
      destruct (IH (outbox ++ [mail_of config m])
                   (results ++ [result_of m (smtp outbox (mail_of config m))]))
        as (rs & Heq & Hlen & Hnth).
      exists (result_of m (smtp outbox (mail_of config m)) :: rs).
      rewrite Heq, <- !app_assoc. cbn. repeat split; [by rewrite Hlen|].
      intros [|i] msg Hi; cbn in Hi |- *.
      * injection Hi as <-. by rewrite app_nil_r.
      * specialize (Hnth i msg Hi). rewrite <- app_assoc in Hnth. exact Hnth.
Qed.

Lemma sendEmails_all (env : Env) (config : Config)
      (messages : list EmailMessage) (outbox : Outbox) :
  getGmailConfig env = inr config ->
  exists results,
    sendEmails smtp onProgress env messages outbox
    = (outbox ++ (mail_of config <$> messages), Done results) /\
    length results = length messages /\
    forall i msg, messages !! i = Some msg ->
      results !! i = Some (result_of msg
                             (smtp (outbox ++ (mail_of config <$> take i messages))
                                   (mail_of config msg))).
Proof.
  intros Hcfg. unfold sendEmails. rewrite Hcfg.
  destruct messages as [|m rest].
  - exists []. cbn. rewrite app_nil_r. by repeat split.
  - cbn [length Nat.eqb].
    destruct (send_loop_all config (S (length rest)) (m :: rest) outbox [])
      as (rs & Heq & Hlen & Hnth).
    exists rs. by rewrite Heq.
Qed.

End GmailFacts.

(** C9, as stated, fails: with the Gmail credentials missing, a list of
    one message gets no result at all; sendEmails raises before the
    message is handed to the transport. *)
Lemma sendEmails_raises_without_credentials :
  Gmail.sendEmails Samples.smtp_delivers None Samples.gmail_env_missing
                   [Samples.message_ann] []
  = ([], Gmail.Threw (Js.ErrorObject
       "Missing Gmail credentials: GMAIL_USER and GMAIL_APP_PASSWORD required")).
Proof. reflexivity. Qed.

(** C9 (amended): when the Gmail credentials are configured and the
    progress callback, if any, does not raise, sendEmails hands the
    messages to the transport strictly one at a time in input order,
    continues past individual failures, and returns exactly one result per
    input message in the same order, the result of that message's own
    delivery: success with the message id and the address, or failure
    with the address and the error text. *)
Theorem sendEmails_one_result_per_message
        (smtp : Gmail.Transport) (onProgress : option Gmail.Progress)
        (env : Gmail.Env) (config : Gmail.Config)
        (messages : list Gmail.EmailMessage) (outbox : Gmail.Outbox) :
  Gmail.getGmailConfig env = inr config ->
  (forall r i t, Gmail.notify onProgress r i t = None) ->
  exists results,
    Gmail.sendEmails smtp onProgress env messages outbox
    = (outbox ++ (Gmail.mail_of config <$> messages), Gmail.Done results) /\
    length results = length messages /\
    forall i msg, messages !! i = Some msg ->
      results !! i =
        Some (Gmail.result_of msg
                (smtp (outbox ++ (Gmail.mail_of config <$> take i messages))
                      (Gmail.mail_of config msg))).
Proof.
  intros Hcfg Hquiet. unfold Gmail.sendEmails. rewrite Hcfg.
  destruct messages as [|m rest].
  - exists []. cbn. rewrite app_nil_r. by repeat split.
  - cbn [length Nat.eqb].
    destruct (send_loop_all smtp onProgress Hquiet config
                (S (length rest)) (m :: rest) outbox [])
      as (rs & Heq & Hlen & Hnth).
    exists rs. rewrite Heq. by repeat split.
Qed.

Lemma sendEmails_one_result_per_message_witness :
  exists results,
    Gmail.sendEmails Samples.smtp_rejects_first None Samples.gmail_env
                     [Samples.message_ann; Samples.message_bob] []
    = (Gmail.mail_of Samples.gmail_config <$>
         [Samples.message_ann; Samples.message_bob],
       Gmail.Done results) /\
    Gmail.success <$> results = [false; true].
Proof.
  destruct (sendEmails_one_result_per_message
              Samples.smtp_rejects_first None Samples.gmail_env
              Samples.gmail_config
              [Samples.message_ann; Samples.message_bob] []
              eq_refl (λ _ _ _, eq_refl))
    as (results & Heq & Hlen & Hnth).
  exists results. split; [exact Heq|].
  pose proof (Hnth 0 _ eq_refl) as H0. pose proof (Hnth 1 _ eq_refl) as H1.
  destruct results as [|r0 [|r1 [|r2 rs]]]; try discriminate.
  cbn in H0, H1. injection H0 as ->. injection H1 as ->. reflexivity.
Defined.

(** ** sendPendingQueue *)


(** C4 at its failing input: Ann's draft lacks a subject and is skipped,
    Bob's is sent. The results hold one entry (Bob's) but are read at
    the positions of the pending drafts, so Bob's own result is
    undefined: the update throws and drafts.json is not rewritten. Bob's
    entry is still a draft although his mail was delivered, and the next
    invocation sends it again. *)
Lemma skipped_draft_breaks_the_write_back :
  Cli.sendPendingQueue (Samples.send_ctx Samples.smtp_delivers)
                       (Cli.Drafts [Samples.draft_ann_no_subject;
                                    Samples.draft_bob]) []
  = (Cli.Drafts [Samples.draft_ann_no_subject; Samples.draft_bob],
     [Samples.mail_bob], Cli.Failed Cli.undefined_result) /\
  Cli.sendPendingQueue (Samples.send_ctx Samples.smtp_delivers)
                       (Cli.Drafts [Samples.draft_ann_no_subject;
                                    Samples.draft_bob]) [Samples.mail_bob]
  = (Cli.Drafts [Samples.draft_ann_no_subject; Samples.draft_bob],
     [Samples.mail_bob; Samples.mail_bob], Cli.Failed Cli.undefined_result).
Proof. split; vm_compute; reflexivity. Qed.

Section CliFacts.

Import Cli.

Lemma status_is_draft (d : DraftEntry) :
  status_is "draft" d = true <-> status d = Some "draft".
Proof. unfold status_is. apply bool_decide_eq_true. Qed.

Lemma elem_of_pending_drafts (entries : list DraftEntry) (d : DraftEntry) :
  d ∈ pending_drafts entries <-> status d = Some "draft" /\ d ∈ entries.
Proof.
  unfold pending_drafts. rewrite list_elem_of_filter, status_is_draft. done.
Qed.


(** A map that does not throw keeps the length and maps position by
    position. *)
Lemma map_throwing_inr {A B : Type} (f : A -> Js.thrown + B)
      (l : list A) (l' : list B) :
  map_throwing f l = inr l' ->
  length l' = length l /\
  forall i x, l !! i = Some x -> exists y, f x = inr y /\ l' !! i = Some y.
Proof.
  revert l'. induction l as [|x l IH]; intros l' H; cbn in H.
  - injection H as <-. split; [done|]. intros i x Hx.
    by rewrite lookup_nil in Hx.
  - destruct (f x) as [e|y] eqn:Ef; [done|].
    destruct (map_throwing f l) as [e|ys]; [done|].
    injection H as <-. destruct (IH ys eq_refl) as [Hl Hn].
    split; [cbn; by rewrite Hl|].
    intros [|i] x' Hx; cbn in Hx |- *.
    + injection Hx as <-. eauto.
    + eauto.
Qed.



Lemma sendEmails_printer (ctx : SendContext) (config : Gmail.Config)
      (messages : list Gmail.EmailMessage) (outbox : Gmail.Outbox) :
  Gmail.getGmailConfig (env ctx) = inr config ->
  exists results,
    Gmail.sendEmails (smtp ctx) (Some progress_printer) (env ctx) messages outbox
    = (outbox ++ (Gmail.mail_of config <$> messages), Gmail.Done results) /\
    length results = length messages.
Proof.
  intros Hcfg.
  destruct (sendEmails_all (smtp ctx) (Some progress_printer)
              (λ _ _ _, eq_refl) (env ctx) config messages outbox Hcfg)
    as (results & Heq & Hlen & _).
  by exists results.
Qed.

(** The two ways an invocation can go: it stops before anything is sent
    and leaves the file alone, or it sends the messages of the pending
    drafts and then writes the file back unless the update throws. *)
Lemma sendPendingQueue_inv (ctx : SendContext) (file file' : DraftsFile)
      (outbox outbox' : Gmail.Outbox) (report : SendReport) :
  sendPendingQueue ctx file outbox = (file', outbox', report) ->
  (file' = file /\ outbox' = outbox /\
   (forall s f, report ≠ Completed s f) /\
   (build_messages ctx (pending_of file) = [] \/
    (skipConfirm ctx = false /\ confirmed ctx ≠ ConfirmValue true) \/
    exists e, Gmail.getGmailConfig (env ctx) = inl e))
  \/
  (exists config entries results,
     Gmail.getGmailConfig (env ctx) = inr config /\
     (skipConfirm ctx = true \/ confirmed ctx = ConfirmValue true) /\
     file = Drafts entries /\ entries ≠ [] /\
     build_messages ctx (pending_of file) ≠ [] /\
     outbox' = outbox ++
       (Gmail.mail_of config <$> build_messages ctx (pending_of file)) /\
     Gmail.sendEmails (smtp ctx) (Some progress_printer) (env ctx)
                      (build_messages ctx (pending_of file)) outbox
       = (outbox', Gmail.Done results) /\
     match map_throwing (update_draft ctx (pending_drafts entries) results)
                        entries with
     | inl e => file' = file /\ report = Failed e
     | inr updatedDrafts =>
         file' = Drafts updatedDrafts /\
         report = Completed (count_where Gmail.success results)
                            (count_where (λ r, negb (Gmail.success r)) results)
     end).
Proof.
  unfold sendPendingQueue.
  destruct file as [|e| |[|d es]]; cbv iota beta zeta;
    try (intros [= <- <- <-]; left; repeat split; try done; left; done).
  remember (d :: es) as entries eqn:Hentries.
  destruct (length (pending_drafts entries) =? 0)%nat eqn:Ep.
  { intros [= <- <- <-]. left. repeat split; try done. left.
    apply Nat.eqb_eq, nil_length_inv in Ep. cbn [pending_of]. by rewrite Ep. }
  destruct (length (build_messages ctx (pending_drafts entries)) =? 0)%nat eqn:Em.
  { intros [= <- <- <-]. left. repeat split; try done. left.
    by apply Nat.eqb_eq, nil_length_inv in Em. }
  destruct (negb (skipConfirm ctx) && _) eqn:Econf.
  { intros [= <- <- <-]. left. repeat split; try done. right; left.
    apply andb_true_iff in Econf as [Hs Hc].
    split; [by destruct (skipConfirm ctx)|].
    destruct (confirmed ctx) as [|[|]]; done. }
  assert (skipConfirm ctx = true \/ confirmed ctx = ConfirmValue true) as Hgo.
  { destruct (skipConfirm ctx); [by left|]. right.
    destruct (confirmed ctx) as [|[|]]; done. }
  destruct (Gmail.getGmailConfig (env ctx)) as [e|config] eqn:Ecfg.
  - unfold Gmail.sendEmails. rewrite Em, Ecfg.
    intros [= <- <- <-]. left. repeat split; try done. right; right. by exists e.
  - destruct (sendEmails_printer ctx config
                (build_messages ctx (pending_drafts entries)) outbox Ecfg)
      as (results & Hsend & Hlen).
    rewrite Hsend. intros H. right. exists config, entries, results.
    split; [done|]. split; [done|]. split; [done|].
    split; [by subst entries|].
    split; [by intros Hnil; cbn [pending_of] in Hnil; rewrite Hnil in Em|].
    cbn [pending_of].
    destruct (map_throwing _ entries) as [e|updated];
      injection H as <- <- <-; done.
Qed.




End CliFacts.



(** *** The write-back when every pending draft is complete and the ids
    are distinct *)

Section WriteBack.

Import Cli.

Variable ctx : SendContext.
Variable entries : list DraftEntry.

Hypothesis ids_distinct : NoDup (id <$> entries).

Lemma pending_ids_distinct : NoDup (id <$> pending_drafts entries).
Proof.
  eapply sublist_NoDup; [exact ids_distinct|].
  apply fmap_sublist. unfold pending_drafts. apply sublist_filter.
Qed.

(** A pending draft is found at its own position. *)
Lemma findIndex_own_position (j : nat) (d : DraftEntry) :
  pending_drafts entries !! j = Some d ->
  findIndex_by_id (pending_drafts entries) d = Some j.
Proof.
  intros Hj. unfold findIndex_by_id.
  assert (list_find (λ pd, id pd = id d) (pending_drafts entries) = Some (j, d))
    as ->; [|done].
  apply list_find_Some. split; [done|]. split; [done|].
  intros k y Hk Hlt Hid.
  assert (k = j); [|lia].
  apply (NoDup_lookup (id <$> pending_drafts entries) k j (id d)).
  - apply pending_ids_distinct.
  - by rewrite list_lookup_fmap, Hk, <- Hid.
  - by rewrite list_lookup_fmap, Hj.
Qed.

(** An entry that is not a draft shares its id with no pending draft. *)
Lemma findIndex_not_pending (i : nat) (d : DraftEntry) :
  entries !! i = Some d -> status d ≠ Some "draft" ->
  findIndex_by_id (pending_drafts entries) d = None.
Proof.
  intros Hi Hs. unfold findIndex_by_id.
  assert (list_find (λ pd, id pd = id d) (pending_drafts entries) = None)
    as ->; [|done].
  apply list_find_None, Forall_forall. intros pd Hpd Hid.
  apply elem_of_pending_drafts in Hpd as [Hdraft Hin].
  apply list_elem_of_lookup in Hin as [k Hk].
  assert (k = i) as ->.
  { apply (NoDup_lookup (id <$> entries) k i (id d)); [done|..].
    - by rewrite list_lookup_fmap, Hk, <- Hid.
    - by rewrite list_lookup_fmap, Hi. }
  congruence.
Qed.

Hypothesis pending_complete :
  forall d, d ∈ pending_drafts entries -> has_required_fields d = true.

Lemma build_messages_all :
  build_messages ctx (pending_drafts entries)
  = message_of ctx <$> pending_drafts entries.
Proof.
  unfold build_messages. f_equal.
  induction (pending_drafts entries) as [|d l IH]; [done|].
  rewrite filter_cons, decide_True by (apply pending_complete; left).
  f_equal. apply IH. intros d' Hd'. apply pending_complete. by right.
Qed.

(** Every entry can be updated, and this is what it becomes. *)
Lemma update_draft_own_result (config : Gmail.Config) (outbox : Gmail.Outbox)
      (results : list Gmail.EmailResult) (i : nat) (d : DraftEntry) :
  (forall j msg,
     (message_of ctx <$> pending_drafts entries) !! j = Some msg ->
     results !! j =
       Some (Gmail.result_of msg
               (smtp ctx
                  (outbox ++ (Gmail.mail_of config <$>
                     take j (message_of ctx <$> pending_drafts entries)))
                  (Gmail.mail_of config msg)))) ->
  entries !! i = Some d ->
  (status d ≠ Some "draft" /\
   update_draft ctx (pending_drafts entries) results d = inr d) \/
  (status d = Some "draft" /\
   exists j, pending_drafts entries !! j = Some d /\
     let result :=
       Gmail.result_of (message_of ctx d)
         (smtp ctx
            (outbox ++ (Gmail.mail_of config <$>
               (message_of ctx <$> take j (pending_drafts entries))))
            (Gmail.mail_of config (message_of ctx d))) in
     update_draft ctx (pending_drafts entries) results d
     = inr (if Gmail.success result then mark_sent ctx d result
            else mark_failed d result)).
Proof.
  intros Hres Hi. destruct (decide (status d = Some "draft")) as [Hs|Hs].
  - right. split; [done|].
    assert (d ∈ pending_drafts entries) as Hin.
    { apply elem_of_pending_drafts. split; [done|].
      apply list_elem_of_lookup. by exists i. }
    apply list_elem_of_lookup in Hin as [j Hj]. exists j. split; [done|].
    cbn zeta. unfold update_draft.
    rewrite (findIndex_own_position j d Hj).
    rewrite (Hres j (message_of ctx d))
      by (by rewrite list_lookup_fmap, Hj).
    rewrite !fmap_take. by destruct (Gmail.success _).
  - left. split; [done|]. unfold update_draft.
    by rewrite (findIndex_not_pending i d Hi Hs).
Qed.

Lemma map_throwing_total {A B : Type} (f : A -> Js.thrown + B) (l : list A) :
  (forall i x, l !! i = Some x -> exists y, f x = inr y) ->
  exists l', map_throwing f l = inr l'.
Proof.
  induction l as [|x l IH]; intros H; cbn; [by eexists|].
  destruct (H 0 x eq_refl) as [y ->].
  destruct IH as [ys ->]; [|by eexists].
  intros i x' Hx. by apply (H (S i)).
Qed.

(** In that case the send phase completes, and every entry is written
    back according to the delivery of its own message: an entry that was
    not a draft is unchanged, a draft becomes sent or failed. *)
Lemma write_back_own_result (config : Gmail.Config) (outbox : Gmail.Outbox) :
  Gmail.getGmailConfig (env ctx) = inr config ->
  skipConfirm ctx = true \/ confirmed ctx = ConfirmValue true ->
  pending_drafts entries ≠ [] ->
  exists updated s f,
    sendPendingQueue ctx (Drafts entries) outbox
    = (Drafts updated,
       outbox ++ (Gmail.mail_of config <$>
                    (message_of ctx <$> pending_drafts entries)),
       Completed s f) /\
    length updated = length entries /\
    forall i d, entries !! i = Some d ->
      (status d ≠ Some "draft" -> updated !! i = Some d) /\
      (status d = Some "draft" ->
       exists j, pending_drafts entries !! j = Some d /\
         let result :=
           Gmail.result_of (message_of ctx d)
             (smtp ctx
                (outbox ++ (Gmail.mail_of config <$>
                   (message_of ctx <$> take j (pending_drafts entries))))
                (Gmail.mail_of config (message_of ctx d))) in
         updated !! i =
           Some (if Gmail.success result then mark_sent ctx d result
                 else mark_failed d result)).
Proof.
  intros Hcfg Hgo Hpending.
  destruct (sendPendingQueue ctx (Drafts entries) outbox)
    as [[file' outbox'] report] eqn:Hrun.
  apply sendPendingQueue_inv in Hrun
    as [(_ & _ & _ & Hwhy)
       |(config' & entries' & results & Hcfg' & _ & [= <-] & _ & _ & -> & Hsent
         & Hupd)].
  { exfalso. destruct Hwhy as [Hnil|[[Hs Hc]|[e He]]].
    - cbn [pending_of] in Hnil. rewrite build_messages_all in Hnil.
      by apply fmap_nil_inv in Hnil.
    - destruct Hgo; congruence.
    - congruence. }
  assert (config' = config) as -> by congruence.
  cbn [pending_of] in Hsent |- *. rewrite build_messages_all in Hsent |- *.
  destruct (sendEmails_all (smtp ctx) (Some progress_printer)
              (λ _ _ _, eq_refl) (env ctx) config
              (message_of ctx <$> pending_drafts entries) outbox Hcfg)
    as (results' & Hsend & _ & Hres).
  rewrite Hsend in Hsent. injection Hsent as <-.
  pose proof (update_draft_own_result config outbox results' ) as Hown.
  destruct (map_throwing_total
              (update_draft ctx (pending_drafts entries) results') entries)
    as [updated Hmap].
  { intros i d Hi. destruct (Hown i d Hres Hi) as [[_ H]|[_ (j & _ & H)]];
      eauto. }
  rewrite Hmap in Hupd. destruct Hupd as [-> ->].
  destruct (map_throwing_inr _ _ _ Hmap) as [Hlen Hnth].
  eexists updated, _, _. split; [reflexivity|]. split; [done|].
  intros i d Hi. destruct (Hnth i d Hi) as (d' & Hd' & Hi').
  destruct (Hown i d Hres Hi) as [[Hs H]|[Hs (j & Hj & H)]].
  - split; [|done]. intros _. congruence.
  - split; [done|]. intros _. exists j. split; [done|].
    cbn zeta in H |- *. congruence.
Qed.

End WriteBack.

(** ** The human review *)

Section LoopFacts.

Import Review Stream.

Variable agent : list HitlResponse -> list StreamEvent.

Lemma prompt_ignores_companies (companies : list CompanyReviewItem)
      (d f : PromptAnswer) :
  promptUserForReview companies d f = promptUserForReview [] d f.
Proof. reflexivity. Qed.

Lemma scan_resumed_steps (events : list StreamEvent) (steps : nat) :
  steps <= fst (scan_resumed events steps).
Proof.
  revert steps. induction events as [|[| |[[|c cs]|]] rest IH]; intros steps;
    cbn; try lia; try (etrans; [|apply IH]; lia).
Qed.

Lemma scan_resumed_interrupt (events : list StreamEvent) (steps : nat)
      (next : list CompanyReviewItem) :
  snd (scan_resumed events steps) = Some next -> next ≠ [].
Proof.
  revert steps. induction events as [|[| |[[|c cs]|]] rest IH]; intros steps;
    cbn; try done; try apply IH.
  by intros [= <-].
Qed.

(** The interrupt found in a resumed stream does not depend on the step
    count. *)
Lemma scan_resumed_snd (events : list StreamEvent) (n m : nat) :
  snd (scan_resumed events n) = snd (scan_resumed events m).
Proof.
  revert n m. induction events as [|[| |[[|c cs]|]] rest IH]; intros n m;
    cbn; try done; apply IH.
Qed.

(** One turn of the review loop on a non-empty list. *)
Lemma review_loop_turn (human : list (PromptAnswer * PromptAnswer))
      (d f : PromptAnswer) (c : CompanyReviewItem)
      (cs : list CompanyReviewItem) (st : LoopState) :
  let response := response_to (d, f) in
  let sent := responses st ++ [response] in
  let resumed := scan_resumed (agent sent) (stepCount st) in
  review_loop agent ((d, f) :: human) (Some (c :: cs)) st
  = review_loop agent human (snd resumed)
      {| stepCount := fst resumed;
         lastApprovedCompanies :=
           match response with
           | Approve => Some (c :: cs)
           | Reject _ => lastApprovedCompanies st
           end;
         responses := sent |}.
Proof.
  cbn [review_loop]. unfold response_to. cbn [fst snd].
  rewrite (prompt_ignores_companies (c :: cs)).
  destruct (scan_resumed _ _) as [steps next]. cbn [fst snd].
  do 2 f_equal. unfold hitlResponse_of.
  by destruct (approved (promptUserForReview [] d f)).
Qed.

(** The loop only adds responses. *)
Lemma review_loop_responses (human : list (PromptAnswer * PromptAnswer))
      (pending : option (list CompanyReviewItem)) (st : LoopState) :
  exists more,
    responses (end_state (review_loop agent human pending st))
    = responses st ++ more.
Proof.
  revert pending st. induction human as [|[d f] later IH]; intros pending st.
  - exists []. rewrite app_nil_r. by destruct pending as [[|c cs]|].
  - destruct pending as [[|c cs]|];
      try (exists []; by rewrite app_nil_r).
    rewrite review_loop_turn. cbv zeta.
    match goal with
    | |- context [review_loop agent later ?next ?s] =>
        destruct (IH next s) as [more Hmore]
    end.
    rewrite Hmore. cbn [responses]. rewrite <- app_assoc. by eexists.
Qed.

(** A list once recorded as approved is only replaced by another
    list. *)
Lemma review_loop_keeps_some (human : list (PromptAnswer * PromptAnswer))
      (pending : option (list CompanyReviewItem)) (st : LoopState) :
  is_Some (lastApprovedCompanies st) ->
  is_Some (lastApprovedCompanies
             (end_state (review_loop agent human pending st))).
Proof.
  revert pending st. induction human as [|[d f] later IH];
    intros pending st Hst.
  - by destruct pending as [[|c cs]|].
  - destruct pending as [[|c cs]|]; try done.
    rewrite review_loop_turn. cbv zeta. apply IH.
    cbn [lastApprovedCompanies]. by destruct (response_to (d, f)).
Qed.

(** Answers that are not approvals leave the recorded list alone. *)
Lemma review_loop_rejections (human : list (PromptAnswer * PromptAnswer))
      (pending : option (list CompanyReviewItem)) (st : LoopState) :
  Forall (λ answer, response_to answer ≠ Approve) human ->
  lastApprovedCompanies (end_state (review_loop agent human pending st))
  = lastApprovedCompanies st.
Proof.
  intros Hrej. revert pending st.
  induction Hrej as [|[d f] later Hd _ IH]; intros pending st.
  - by destruct pending as [[|c cs]|].
  - destruct pending as [[|c cs]|]; try done.
    rewrite review_loop_turn. cbv zeta. rewrite IH.
    cbn [lastApprovedCompanies]. by destruct (response_to (d, f)).
Qed.

(** The lists shown after the first answer are those of the loop that
    goes on after it. *)
Lemma shown_before_turn (human : list (PromptAnswer * PromptAnswer))
      (d f : PromptAnswer) (pending : option (list CompanyReviewItem))
      (st st' : LoopState) (i : nat) :
  responses st' = responses st ++ [response_to (d, f)] ->
  shown_before agent st pending ((d, f) :: human) (S i)
  = shown_before agent st'
      (snd (scan_resumed (agent (responses st')) (stepCount st)))
      human i.
Proof.
  intros Hst'. unfold shown_before. cbn [take fmap list_fmap].
  destruct i as [|i].
  - cbn [take fmap list_fmap]. rewrite Hst'. apply scan_resumed_snd.
  - rewrite Hst', <- app_assoc. done.
Qed.

End LoopFacts.

(** C5: whenever the human cancels the review prompt, at the
    approve/revise selection or at the feedback text after choosing
    revise, the decision is {approved: true}; the review loop then sends
    the approve response to the agent, records the list that was on
    display as the approved one, and goes on with the resumed stream:
    the responses delivered to the agent begin with those sent before
    and the approval; a list stays recorded as approved, and it is the
    list on display unless a later answer approves another one; when the
    resumed stream ends without another interrupt the loop ends in the
    state holding the approval and the list on display, and when it is
    interrupted again that state waits for the next answer. *)
Theorem aborted_review_is_implicit_approval
        (agent : list Review.HitlResponse -> list Review.StreamEvent)
        (human : list (Review.PromptAnswer * Review.PromptAnswer))
        (st : Review.LoopState)
        (c : Review.CompanyReviewItem) (cs : list Review.CompanyReviewItem)
        (answer : Review.PromptAnswer) :
  let companies := c :: cs in
  let sent := Review.responses st ++ [Review.Approve] in
  let resumed := Review.scan_resumed (agent sent) (Review.stepCount st) in
  let approved_state :=
    {| Review.stepCount := fst resumed;
       Review.lastApprovedCompanies := Some companies;
       Review.responses := sent |} in
  let proceeds decision feedbackAnswer :=
    let outcome :=
      Review.review_loop agent ((decision, feedbackAnswer) :: human)
                         (Some companies) st in
    outcome = Review.review_loop agent human (snd resumed) approved_state /\
    (exists more,
       Review.responses (Stream.end_state outcome) = sent ++ more) /\
    is_Some (Review.lastApprovedCompanies (Stream.end_state outcome)) /\
    (Forall (λ later, Stream.response_to later ≠ Review.Approve) human ->
     Review.lastApprovedCompanies (Stream.end_state outcome)
     = Some companies) /\
    (snd resumed = None -> outcome = Review.StreamConsumed approved_state) /\
    (forall next, snd resumed = Some next -> human = [] ->
       outcome = Review.AwaitingHuman next approved_state) in
  Review.promptUserForReview companies Review.PromptCancel answer
    = {| Review.approved := true; Review.feedback := None |} /\
  Review.promptUserForReview companies (Review.PromptValue "revise")
                             Review.PromptCancel
    = {| Review.approved := true; Review.feedback := None |} /\
  proceeds Review.PromptCancel answer /\
  proceeds (Review.PromptValue "revise") Review.PromptCancel.
Proof.
  intros companies sent resumed approved_state proceeds.
  split; [reflexivity|]. split; [reflexivity|].
  assert (forall d f, Stream.response_to (d, f) = Review.Approve ->
                      proceeds d f) as Hgo.
  { intros d f Hd. unfold proceeds. cbv zeta. unfold companies.
    rewrite review_loop_turn. cbv zeta. rewrite Hd.
    fold sent. fold resumed. fold companies. fold approved_state.
    split; [reflexivity|]. split; [|split; [|split; [|split]]].
    - apply review_loop_responses.
    - apply review_loop_keeps_some. by eexists.
    - intros Hrej. by rewrite review_loop_rejections.
    - intros ->. by destruct human.
    - intros next Hnext ->. rewrite Hnext.
      pose proof (scan_resumed_interrupt _ _ _ Hnext) as Hne.
      by destruct next. }
  split; apply Hgo; reflexivity.
Qed.

Lemma aborted_review_is_implicit_approval_witness :
  Review.review_loop (λ _, [Review.MessagesEvent])
    [(Review.PromptCancel, Review.PromptCancel)]
    (Some [Samples.acme]) Stream.initial_state
  = Review.StreamConsumed
      {| Review.stepCount := 1;
         Review.lastApprovedCompanies := Some [Samples.acme];
         Review.responses := [Review.Approve] |}.
Proof.
  destruct (aborted_review_is_implicit_approval
              (λ _, [Review.MessagesEvent]) [] Stream.initial_state
              Samples.acme [] Review.PromptCancel)
    as (_ & _ & (_ & _ & _ & _ & Hend & _) & _).
  exact (Hend eq_refl).
Defined.

(** ** runPipeline and its statistics *)

Section PipelineFacts.

Import Pipeline.

Lemma count_success_None (companies : list json) :
  count_success companies = None <-> existsb is_null companies = true.
Proof.
  induction companies as [|c l IH]; cbn; [done|].
  destruct c; cbn; try done;
    try (destruct (count_success l); [split; [done|]|];
         rewrite <- IH; done).
  destruct (field "status" fields) as [[]|];
    (destruct (count_success l); [split; [done|]|]; rewrite <- IH; done).
Qed.

Lemma count_success_Some (companies : list json) (n : nat) :
  count_success companies = Some n ->
  n = length (List.filter has_status_success companies).
Proof.
  revert n. induction companies as [|c l IH]; intros n; cbn.
  - by intros [= <-].
  - destruct (status_is_success c) as [b|] eqn:Hb; [|done].
    destruct (count_success l) as [m|]; [|done].
    intros [= <-]. rewrite (IH m eq_refl).
    assert (has_status_success c = b) as ->.
    { destruct c; cbn in Hb |- *; try congruence.
      destruct (field "status" fields) as [[]|]; congruence. }
    by destruct b.
Qed.

End PipelineFacts.



(** C10, as stated, fails. On the first disk both files are present and
    parse: companies.json holds one SUCCESS entry and a null, drafts.json
    holds one draft; the statistics report no researched company and no
    draft. On the second disk companies.json cannot be parsed and
    drafts.json holds one draft; the statistics report no draft. *)
Lemma statistics_miss_the_drafts_file :
  (Pipeline.gatherPipelineStats Samples.work_dir Samples.disk_null_entry
   = {| Pipeline.companiesCandidates := 0; Pipeline.companiesSelected := 2;
        Pipeline.companiesResearched := 0; Pipeline.contactsFound := 0;
        Pipeline.contactsVerified := 0; Pipeline.draftsGenerated := 0 |} /\
   Pipeline.success_count Samples.disk_null_entry
     (Workspace.join Samples.work_dir "companies.json") = 1 /\
   Pipeline.entry_count Samples.disk_null_entry
     (Workspace.join Samples.work_dir "drafts.json") = 1) /\
  (Pipeline.draftsGenerated
     (Pipeline.gatherPipelineStats Samples.work_dir
                                   Samples.disk_broken_companies) = 0 /\
   Pipeline.entry_count Samples.disk_broken_companies
     (Workspace.join Samples.work_dir "drafts.json") = 1).
Proof. repeat split; vm_compute; reflexivity. Qed.

(** C10 (amended): the statistics of a successful run are computed from
    the disk the run leaves, not accumulated in memory. companiesSelected
    is the number of entries of companies.json (zero when the file is
    absent, unreadable or not an array), and contactsFound and
    contactsVerified equal draftsGenerated. When reading companies.json
    raises no exception, companiesResearched is the number of its entries
    with status SUCCESS and draftsGenerated is the number of entries of
    drafts.json (zero when that file is absent, unreadable or not an
    array). When reading companies.json raises (the file is unreadable, or
    an entry is null), drafts.json is not read: companiesResearched and
    the three drafts statistics are zero. *)
Theorem statistics_are_read_from_disk
        (workDir : string) (fs : gmap string Pipeline.File) :
  let companies := Workspace.join workDir "companies.json" in
  let drafts := Workspace.join workDir "drafts.json" in
  let s := Pipeline.gatherPipelineStats workDir fs in
  (forall run_agent projectRoot runId fs0,
     run_agent runId fs0 = (fs, None) ->
     workDir = (projectRoot ++ "/runs/" ++ runId)%string ->
     Pipeline.runPipeline run_agent projectRoot runId fs0
     = (fs, {| Pipeline.success := true; Pipeline.runId := runId;
               Pipeline.stats := s; Pipeline.error := None |})) /\
  Pipeline.companiesCandidates s = 0 /\
  Pipeline.companiesSelected s = Pipeline.entry_count fs companies /\
  Pipeline.contactsFound s = Pipeline.draftsGenerated s /\
  Pipeline.contactsVerified s = Pipeline.draftsGenerated s /\
  (Pipeline.companies_read_raises fs companies = false ->
   Pipeline.companiesResearched s = Pipeline.success_count fs companies /\
   Pipeline.draftsGenerated s = Pipeline.entry_count fs drafts) /\
  (Pipeline.companies_read_raises fs companies = true ->
   Pipeline.companiesResearched s = 0 /\ Pipeline.draftsGenerated s = 0).
Proof.
  intros companies drafts s. split.
  { intros run_agent projectRoot runId fs0 Hrun ->.
    unfold Pipeline.runPipeline. by rewrite Hrun. }
  unfold s, Pipeline.gatherPipelineStats, Pipeline.read_drafts,
    Pipeline.entry_count, Pipeline.success_count,
    Pipeline.companies_read_raises.
  fold companies drafts.
  destruct (fs !! companies) as [[|[| | | |entries|]]|] eqn:Hc;
    try (destruct (fs !! drafts) as [[|[]]|]; cbn; repeat split; done);
    try (cbn; repeat split; done).
  destruct (Pipeline.count_success entries) as [n|] eqn:Hn.
  - assert (existsb Pipeline.is_null entries = false) as Hex.
    { destruct (existsb Pipeline.is_null entries) eqn:E; [|done].
      apply count_success_None in E. congruence. }
    apply count_success_Some in Hn as ->. rewrite Hex.
    destruct (fs !! drafts) as [[|[]]|]; cbn; repeat split; done.
  - rewrite (proj1 (count_success_None entries) Hn).
    cbn. repeat split; done.
Qed.

Lemma statistics_are_read_from_disk_witness :
  Pipeline.gatherPipelineStats Samples.work_dir Samples.disk_healthy
  = {| Pipeline.companiesCandidates := 0; Pipeline.companiesSelected := 2;
       Pipeline.companiesResearched := 1; Pipeline.contactsFound := 1;
       Pipeline.contactsVerified := 1; Pipeline.draftsGenerated := 1 |} /\
  snd (Pipeline.runPipeline Samples.agent_completes
                            "/home/me/outreach" "run0001" ∅)
  = {| Pipeline.success := true; Pipeline.runId := "run0001";
       Pipeline.stats :=
         Pipeline.gatherPipelineStats Samples.work_dir Samples.disk_healthy;
       Pipeline.error := None |}.
Proof.
  destruct (statistics_are_read_from_disk Samples.work_dir Samples.disk_healthy)
    as (Hrun & Hcand & Hsel & Hfound & Hverified & Hok & _).
  destruct (Hok eq_refl) as [Hres Hdrafts].
  split.
  - destruct (Pipeline.gatherPipelineStats Samples.work_dir Samples.disk_healthy)
      as [cand sel res found ver dr].
    cbn in Hcand, Hsel, Hfound, Hverified, Hres, Hdrafts.
    rewrite Hcand, Hsel, Hfound, Hverified, Hres, Hdrafts.
    reflexivity.
  - rewrite (Hrun Samples.agent_completes "/home/me/outreach" "run0001" ∅
                  eq_refl eq_refl).
    reflexivity.
Defined.

(** * Further properties of the code *)

(** ** generateRunId *)

Section RunIdFacts.

Import RunId.

Ltac div_lia := zify; Z.to_euclidean_division_equations; lia.

Lemma digit_of_char (d : N) :
  (d < 10)%N -> Text.digit_of (pretty_N_char d) = Some d.
Proof.
  intros Hd.
  assert (d = 0 \/ d = 1 \/ d = 2 \/ d = 3 \/ d = 4 \/ d = 5 \/ d = 6 \/ d = 7
          \/ d = 8 \/ d = 9)%N as H by lia.
  repeat (destruct H as [->|H]; [reflexivity|]). by subst.
Qed.

(** A number below 10000, printed and padded to four characters, is the
    string of its four decimal digits. *)
Lemma pad_four_digits (n : N) :
  (n <= 9999)%N ->
  Text.padStart 4 Text.zero_char (pretty n)
  = String (pretty_N_char (n / 1000))
      (String (pretty_N_char ((n / 100) `mod` 10))
         (String (pretty_N_char ((n / 10) `mod` 10))
            (String (pretty_N_char (n `mod` 10)) EmptyString))).
Proof.
  intros Hn. unfold pretty, pretty_N.
  destruct (decide (n = 0)%N) as [->|Hn0]; [reflexivity|].
  rewrite pretty_N_go_step by lia.
  destruct (decide (n / 10 = 0)%N) as [H1|H1].
  { rewrite H1, pretty_N_go_0.
    replace (n / 1000)%N with 0%N by div_lia.
    replace (n / 100)%N with 0%N by div_lia.
    reflexivity. }
  rewrite pretty_N_go_step by div_lia.
  destruct (decide (n / 10 / 10 = 0)%N) as [H2|H2].
  { rewrite H2, pretty_N_go_0.
    replace (n / 1000)%N with 0%N by div_lia.
    replace (n / 100)%N with 0%N by div_lia.
    reflexivity. }
  rewrite pretty_N_go_step by div_lia.
  replace (n / 10 / 10)%N with (n / 100)%N in * by div_lia.
  destruct (decide (n / 100 / 10 = 0)%N) as [H3|H3].
  { rewrite H3, pretty_N_go_0.
    replace (n / 1000)%N with 0%N by div_lia.
    reflexivity. }
  rewrite pretty_N_go_step by div_lia.
  replace (n / 100 / 10)%N with (n / 1000)%N in * by div_lia.
  replace (n / 1000 / 10)%N with 0%N by div_lia.
  rewrite pretty_N_go_0.
  replace ((n / 1000) `mod` 10)%N with (n / 1000)%N by div_lia.
  reflexivity.
Qed.

(** The id made for a number is read back as that number, for every
    number that fits four digits. *)
Lemma run_name_round_trip (n : N) :
  (1 <= n <= 9999)%N ->
  match_run ("run" ++ Text.padStart 4 Text.zero_char (pretty n))%string = Some n.
Proof.
  intros Hn. rewrite pad_four_digits by lia.
  unfold match_run.
  change (Text.strip_prefix "run" ("run" ++ ?s)%string) with (Some s).
  cbv beta iota. rewrite !digit_of_char by div_lia.
  f_equal. div_lia.
Qed.

Lemma digit_of_bound (c : Ascii.ascii) (d : N) :
  Text.digit_of c = Some d -> (d <= 9)%N.
Proof.
  unfold Text.digit_of.
  destruct (_ && _) eqn:E; [|done]. intros [= <-].
  apply andb_true_iff in E as [_ E]. apply N.leb_le in E. lia.
Qed.

Lemma match_run_bound (n : string) (k : N) :
  match_run n = Some k -> (k <= 9999)%N.
Proof.
  unfold match_run.
  destruct (Text.strip_prefix "run" n) as [[|a [|b [|c [|d [|]]]]]|]; try done.
  destruct (Text.digit_of a) as [x|] eqn:Ha; [|done].
  destruct (Text.digit_of b) as [y|] eqn:Hb; [|done].
  destruct (Text.digit_of c) as [z|] eqn:Hc; [|done].
  destruct (Text.digit_of d) as [w|] eqn:Hd; [|done].
  intros [= <-].
  apply digit_of_bound in Ha, Hb, Hc, Hd. lia.
Qed.

Lemma scan_entry_bounds (m : N) (e : Dirent) :
  (m <= scan_entry m e)%N /\
  ((m <= 9999)%N -> (scan_entry m e <= 9999)%N) /\
  (isDirectory e = true -> forall k, match_run (name e) = Some k ->
     (k <= scan_entry m e)%N).
Proof.
  unfold scan_entry. destruct (isDirectory e).
  - destruct (match_run (name e)) as [num|] eqn:Hm.
    + apply match_run_bound in Hm.
      destruct (m <? num)%N eqn:E;
        [apply N.ltb_lt in E|apply N.ltb_ge in E];
        repeat split; try lia; intros _ k [= <-]; lia.
    + repeat split; first [lia|done].
  - repeat split; first [lia|done].
Qed.

Lemma fold_scan_bounds (entries : list Dirent) (m : N) :
  (m <= fold_left scan_entry entries m)%N /\
  ((m <= 9999)%N -> (fold_left scan_entry entries m <= 9999)%N) /\
  (forall e k, e ∈ entries -> isDirectory e = true ->
     match_run (name e) = Some k -> (k <= fold_left scan_entry entries m)%N).
Proof.
  revert m. induction entries as [|e l IH]; intros m; cbn.
  - repeat split; try lia. intros e k He. by apply elem_of_nil in He.
  - destruct (scan_entry_bounds m e) as (H1 & H2 & H3).
    destruct (IH (scan_entry m e)) as (I1 & I2 & I3).
    repeat split; [lia|auto|].
    intros e' k He' Hd Hk. apply elem_of_cons in He' as [->|He'].
    + specialize (H3 Hd k Hk). lia.
    + eauto.
Qed.

Lemma max_run_bounds (entries : list Dirent) :
  (max_run entries <= 9999)%N /\
  (forall e k, e ∈ entries -> isDirectory e = true ->
     match_run (name e) = Some k -> (k <= max_run entries)%N).
Proof.
  unfold max_run. destruct (fold_scan_bounds entries 0%N) as (_ & H2 & H3).
  split; [apply H2; lia|exact H3].
Qed.

End RunIdFacts.

(** X1: while the highest number borne by a run directory (a directory
    named run and four digits; 0 when there is none) is below 9999, the
    generated run id is run followed by the four digits of the next
    number, and no directory of the listing already bears it; with no
    runs directory or an empty one the id is run0001. *)
Theorem generateRunId_is_fresh (entries : list RunId.Dirent) :
  (RunId.max_run entries < 9999)%N ->
  let runId := RunId.generateRunId (Some entries) in
  RunId.match_run runId = Some (RunId.max_run entries + 1)%N /\
  (forall e, e ∈ entries -> RunId.isDirectory e = true -> RunId.name e ≠ runId) /\
  (entries = [] -> runId = "run0001"%string) /\
  RunId.generateRunId None = "run0001"%string.
Proof.
  intros Hmax runId.
  assert (RunId.match_run runId = Some (RunId.max_run entries + 1)%N) as Hid.
  { unfold runId, RunId.generateRunId. cbn [from_option].
    apply run_name_round_trip. lia. }
  split; [done|]. split; [|split].
  - intros e He Hd Heq. rewrite <- Heq in Hid.
    pose proof (proj2 (max_run_bounds entries) e _ He Hd Hid). lia.
  - intros ->. reflexivity.
  - reflexivity.
Qed.

Lemma generateRunId_is_fresh_witness :
  RunId.match_run
    (RunId.generateRunId
       (Some [ {| RunId.name := "run0007"; RunId.isDirectory := true |};
               {| RunId.name := "run0012"; RunId.isDirectory := false |};
               {| RunId.name := "notes"; RunId.isDirectory := true |} ]))
  = Some 8%N.
Proof.
  destruct (generateRunId_is_fresh
              [ {| RunId.name := "run0007"; RunId.isDirectory := true |};
                {| RunId.name := "run0012"; RunId.isDirectory := false |};
                {| RunId.name := "notes"; RunId.isDirectory := true |} ]
              eq_refl) as [Hid _].
  exact Hid.
Defined.

(** X2: once a directory run9999 exists, the generated id is run10000,
    which the four-digit pattern does not read back: the id stays
    run10000 when a directory of that name is already there. *)
Theorem generateRunId_after_run9999 (entries : list RunId.Dirent) :
  {| RunId.name := "run9999"; RunId.isDirectory := true |} ∈ entries ->
  RunId.generateRunId (Some entries) = "run10000"%string /\
  RunId.generateRunId
    (Some ({| RunId.name := "run10000"; RunId.isDirectory := true |} :: entries))
  = "run10000"%string.
Proof.
  intros Hin.
  assert (forall l, {| RunId.name := "run9999"; RunId.isDirectory := true |} ∈ l ->
                    RunId.generateRunId (Some l) = "run10000"%string) as Hgen.
  { intros l Hl. unfold RunId.generateRunId. cbn [from_option].
    destruct (max_run_bounds l) as [Hle Hge].
    specialize (Hge _ 9999%N Hl eq_refl eq_refl).
    replace (RunId.max_run l) with 9999%N by lia. vm_compute. reflexivity. }
  split; [by apply Hgen|]. apply Hgen. by right.
Qed.

Lemma generateRunId_after_run9999_witness :
  RunId.generateRunId
    (Some [ {| RunId.name := "run10000"; RunId.isDirectory := true |};
            {| RunId.name := "run9999"; RunId.isDirectory := true |} ])
  = "run10000"%string.
Proof.
  apply (proj2 (generateRunId_after_run9999
                  [ {| RunId.name := "run9999"; RunId.isDirectory := true |} ]
                  ltac:(left))).
Defined.

(** ** findWorkspaceRoot *)

Section WorkspaceRootFacts.

Import WorkspaceRoot.

Variable existsSync : list string -> bool.

Lemma walk_up_nearest (rev_dir : list string) :
  match walk_up existsSync rev_dir with
  | Some root =>
      exists k, k <= length rev_dir /\ root = take k (rev rev_dir) /\
        existsSync (join (take k (rev rev_dir)) ".deepreach") = true /\
        forall j, k < j <= length rev_dir ->
          existsSync (join (take j (rev rev_dir)) ".deepreach") = false
  | None =>
      forall j, j <= length rev_dir ->
        existsSync (join (take j (rev rev_dir)) ".deepreach") = false
  end.
Proof.
  change ".deepreach"%string with Workspace.WORKSPACE_DIR_NAME.
  induction rev_dir as [|x parent IH].
  - cbn. destruct (existsSync _) eqn:E.
    + exists 0. cbn. split; [lia|]. split; [done|]. split; [done|].
      intros j Hj. lia.
    + intros j Hj. by replace j with 0 by (cbn in Hj; lia).
  - cbn [walk_up].
    assert (take (length (x :: parent)) (rev (x :: parent)) = rev (x :: parent))
      as Hfull by (apply take_ge; by rewrite length_rev).
    destruct (existsSync (join (rev (x :: parent)) _)) eqn:E.
    + exists (length (x :: parent)). rewrite Hfull.
      split; [lia|]. split; [done|]. split; [done|]. intros j Hj. lia.
    + assert (forall j, j <= length parent ->
                take j (rev (x :: parent)) = take j (rev parent)) as Hshort.
      { intros j Hj. cbn [rev]. apply take_app_le. by rewrite length_rev. }
      destruct (walk_up existsSync parent) as [root|].
      * destruct IH as (k & Hk & -> & Hex & Hnone).
        exists k. rewrite (Hshort k Hk).
        split; [cbn; lia|]. split; [done|]. split; [done|].
        intros j Hj. destruct (decide (j = length (x :: parent))) as [->|Hne].
        -- by rewrite Hfull.
        -- rewrite Hshort by (cbn in Hj, Hne; lia).
           apply Hnone. cbn in Hj, Hne. lia.
      * intros j Hj. destruct (decide (j = length (x :: parent))) as [->|Hne].
        -- by rewrite Hfull.
        -- rewrite Hshort by (cbn in Hj, Hne; lia).
           apply IH. cbn in Hj, Hne. lia.
Qed.

End WorkspaceRootFacts.

(** X3: findWorkspaceRoot returns the nearest directory, among the start
    directory and its ancestors, that holds a .deepreach directory, and
    returns null exactly when none of them does, the file system root
    included. *)
Theorem findWorkspaceRoot_nearest
        (existsSync : list string -> bool) (from : list string) :
  match WorkspaceRoot.findWorkspaceRoot existsSync from with
  | Some root =>
      exists k, k <= length from /\ root = take k from /\
        existsSync (WorkspaceRoot.join root ".deepreach") = true /\
        forall j, k < j <= length from ->
          existsSync (WorkspaceRoot.join (take j from) ".deepreach") = false
  | None =>
      forall j, j <= length from ->
        existsSync (WorkspaceRoot.join (take j from) ".deepreach") = false
  end.
Proof.
  unfold WorkspaceRoot.findWorkspaceRoot.
  pose proof (walk_up_nearest existsSync (rev from)) as H.
  rewrite rev_involutive, length_rev in H.
  destruct (WorkspaceRoot.walk_up existsSync (rev from)) as [root|].
  - destruct H as (k & Hk & -> & Hex & Hnone). exists k. by repeat split.
  - exact H.
Qed.

(** ** assignToolsToSubagent *)

Lemma List_filter_sublist {A : Type} (f : A -> bool) (l : list A) :
  List.filter f l `sublist_of` l.
Proof.
  induction l as [|x l IH]; cbn [List.filter]; [done|].
  destruct (f x); [by apply sublist_skip|by apply sublist_cons].
Qed.

(** X4: a subagent is handed exactly the available tools that its
    definition names, in their order: company-flow the web_search and
    people_lookup tools, contact-personalization the web_search tools, and
    any other name nothing; so no subagent ever holds review_companies. *)
Theorem assignToolsToSubagent_allows
        (Tool : Type) (tool_name : Tool -> string)
        (subagentName : string) (availableTools : list Tool) :
  let assigned :=
    Subagents.assignToolsToSubagent Tool tool_name subagentName availableTools in
  assigned `sublist_of` availableTools /\
  (forall t, t ∈ assigned <->
     t ∈ availableTools /\
     ((subagentName = "company-flow"%string /\
       (tool_name t = "web_search"%string \/
        tool_name t = "people_lookup"%string)) \/
      (subagentName = "contact-personalization"%string /\
       tool_name t = "web_search"%string))) /\
  (forall t, t ∈ assigned -> tool_name t ≠ "review_companies"%string).
Proof.
  intros assigned.
  assert (forall t, t ∈ assigned <->
     t ∈ availableTools /\
     ((subagentName = "company-flow"%string /\
       (tool_name t = "web_search"%string \/
        tool_name t = "people_lookup"%string)) \/
      (subagentName = "contact-personalization"%string /\
       tool_name t = "web_search"%string))) as Hspec.
  { intros t. unfold assigned, Subagents.assignToolsToSubagent,
      Subagents.find_definition, Subagents.SUBAGENT_DEFINITIONS.
    cbn [List.find Subagents.name Subagents.tools].
    destruct (String.eqb_spec "company-flow" subagentName) as [<-|Hn1].
    - rewrite list_elem_of_In, filter_In, <- list_elem_of_In.
      cbn [existsb Subagents.tools]. rewrite !orb_true_iff, !String.eqb_eq.
      intuition congruence.
    - destruct (String.eqb_spec "contact-personalization" subagentName)
        as [<-|Hn2].
      + rewrite list_elem_of_In, filter_In, <- list_elem_of_In.
        cbn [existsb Subagents.tools]. rewrite !orb_true_iff, !String.eqb_eq.
        intuition congruence.
      + split; [by intros ?%elem_of_nil|].
        intros [_ [[-> _]|[-> _]]]; done. }
  split; [|split; [exact Hspec|]].
  - unfold assigned, Subagents.assignToolsToSubagent.
    destruct (Subagents.find_definition _ _); [|apply sublist_nil_l].
    apply List_filter_sublist.
  - intros t [_ [[_ [H|H]]|[_ H]]]%Hspec; rewrite H; done.
Qed.
(** ** Interrupt chunks *)

Section StreamFacts.

Import Stream.

Lemma first_review_request_skips (before : list Pipeline.json)
      (rest : list Pipeline.json) :
  Forall (λ a, is_review_request a = false) before ->
  first_review_request (before ++ rest) = first_review_request rest.
Proof.
  induction 1 as [|a l Ha _ IH]; [done|]. cbn. by rewrite Ha.
Qed.

Lemma first_review_request_action (companies : Pipeline.json)
      (after : list Pipeline.json) :
  truthy (Some companies) = true ->
  first_review_request (review_action companies :: after) = Companies companies.
Proof.
  intros Ht. cbn [first_review_request].
  assert (is_review_request (review_action companies) = true) as ->; [|done].
  unfold is_review_request, review_action. cbn. exact Ht.
Qed.

(** Whatever is found is truthy and comes from an action named
    review_companies. *)
Lemma first_review_request_sound (requests : list Pipeline.json)
      (companies : Pipeline.json) :
  first_review_request requests = Companies companies ->
  truthy (Some companies) = true /\
  exists action, action ∈ requests /\
    prop "name" (Some action) = Some (Pipeline.JStr "review_companies") /\
    prop "companies" (prop "args" (Some action)) = Some companies.
Proof.
  induction requests as [|a l IH]; [done|]. cbn [first_review_request].
  destruct (is_review_request a) eqn:Ha.
  - unfold is_review_request in Ha.
    destruct (prop "name" (Some a)) as [[| | |n| |]|] eqn:Hn; try done.
    apply andb_true_iff in Ha as [Hname Ht]. apply String.eqb_eq in Hname as ->.
    destruct (prop "companies" (prop "args" (Some a))) as [c|] eqn:Hc; [|done].
    intros [= <-]. split; [done|]. exists a. split; [left|done].
  - intros H. destruct (IH H) as (Ht & action & Hin & Hrest).
    split; [done|]. exists action. split; [by right|done].
Qed.

End StreamFacts.

(** X5: an interrupt chunk that carries a review_companies request is
    read back: extractInterruptCompanies returns the companies of the
    first such request, whether the interrupt value lists its requests
    under actionRequests or is the request itself, as long as the
    companies value is truthy and no request before it is one. *)
Theorem extractInterruptCompanies_round_trip
        (before after : list Pipeline.json) (companies : Pipeline.json) :
  Stream.truthy (Some companies) = true ->
  Forall (λ a, Stream.is_review_request a = false) before ->
  Stream.extractInterruptCompanies
    (Stream.interrupt_chunk before companies after)
  = Stream.Companies companies /\
  Stream.extractInterruptCompanies (Stream.bare_interrupt_chunk companies)
  = Stream.Companies companies.
Proof.
  intros Ht Hbefore. split.
  - unfold Stream.extractInterruptCompanies, Stream.interrupt_chunk.
    cbn -[Stream.first_review_request Stream.review_action].
    rewrite first_review_request_skips by done.
    by apply first_review_request_action.
  - unfold Stream.extractInterruptCompanies, Stream.bare_interrupt_chunk.
    cbn -[Stream.first_review_request Stream.review_action].
    by apply first_review_request_action.
Qed.

Lemma extractInterruptCompanies_round_trip_witness :
  Stream.extractInterruptCompanies
    (Stream.interrupt_chunk
       [Pipeline.JObj [("name", Pipeline.JStr "write_file")]]
       (Pipeline.JArr [Samples.success_company]) [])
  = Stream.Companies (Pipeline.JArr [Samples.success_company]).
Proof.
  apply (proj1 (extractInterruptCompanies_round_trip
                  [Pipeline.JObj [("name", Pipeline.JStr "write_file")]] []
                  (Pipeline.JArr [Samples.success_company])
                  eq_refl
                  ltac:(repeat constructor))).
Defined.

(** X6: extractInterruptCompanies finds companies only in an object chunk
    whose __interrupt__ entry is a non-empty array, and only as the
    truthy args.companies of a request named review_companies that the
    first element of that array holds, as its value, in its value, or
    under value.actionRequests; a chunk without the __interrupt__ key, an
    array, null, false, 0 or the empty string gives null. *)
Theorem extractInterruptCompanies_sound
        (chunk companies : Pipeline.json) :
  Stream.extractInterruptCompanies chunk = Stream.Companies companies ->
  Stream.truthy (Some companies) = true /\
  exists fields info later action source,
    chunk = Pipeline.JObj fields /\
    Pipeline.field "__interrupt__" fields = Some (Pipeline.JArr (info :: later)) /\
    Stream.prop "name" (Some action)
      = Some (Pipeline.JStr "review_companies") /\
    Stream.prop "companies" (Stream.prop "args" (Some action))
      = Some companies /\
    (source = Stream.prop "actionRequests" (Stream.prop "value" (Some info)) \/
     source = Stream.prop "value" (Some info)) /\
    (source = Some action \/
     exists requests, source = Some (Pipeline.JArr requests) /\ action ∈ requests).
Proof.
  unfold Stream.extractInterruptCompanies.
  destruct (negb (Stream.truthy (Some chunk))); [done|].
  destruct chunk as [| | | | |fields]; try done.
  destruct (Pipeline.field "__interrupt__" fields)
    as [[| | | |[|info later]|]|] eqn:Hf; try done.
  cbv zeta. unfold Stream.or.
  set (value := Stream.prop "value" (Some info)).
  set (reqs := Stream.prop "actionRequests" value).
  assert (forall source,
            match source with
            | Some (Pipeline.JArr actions) => Stream.first_review_request actions
            | Some request => Stream.first_review_request [request]
            | None => Stream.NoInterrupt
            end = Stream.Companies companies ->
            Stream.truthy (Some companies) = true /\
            exists action,
              Stream.prop "name" (Some action)
                = Some (Pipeline.JStr "review_companies") /\
              Stream.prop "companies" (Stream.prop "args" (Some action))
                = Some companies /\
              (source = Some action \/
               exists requests,
                 source = Some (Pipeline.JArr requests) /\ action ∈ requests))
    as Hsource.
  { intros source H.
    assert (exists requests,
              Stream.first_review_request requests = Stream.Companies companies /\
              (source = Some (Pipeline.JArr requests) \/
               exists r, source = Some r /\ requests = [r]))
      as (requests & Hfound & Hshape).
    { destruct source as [[| | | |actions|]|]; try done;
        try (eexists; split; [exact H|]; right; eexists; done).
      exists actions. split; [done|]. by left. }
    apply first_review_request_sound in Hfound as (Ht & action & Hin & Hn & Hc).
    split; [done|]. exists action.
    split; [done|]. split; [done|].
    destruct Hshape as [->|(r & -> & ->)].
    - right. by exists requests.
    - apply list_elem_of_singleton in Hin as ->. by left. }
  destruct (Stream.truthy reqs) eqn:Hr.
  - intros H. destruct (Hsource reqs H) as (Ht & action & Hn & Hc & Hwhere).
    split; [done|]. exists fields, info, later, action, reqs.
    repeat split; try done. by left.
  - destruct (Stream.truthy value) eqn:Hv.
    + intros H. destruct (Hsource value H) as (Ht & action & Hn & Hc & Hwhere).
      split; [done|]. exists fields, info, later, action, value.
      repeat split; try done. by right.
    + cbn. done.
Qed.

Lemma extractInterruptCompanies_sound_witness :
  Stream.truthy (Some (Pipeline.JArr [Samples.success_company])) = true.
Proof.
  apply (extractInterruptCompanies_sound
           (Stream.bare_interrupt_chunk (Pipeline.JArr [Samples.success_company]))
           (Pipeline.JArr [Samples.success_company]) eq_refl).
Defined.
(** ** The stream and the review loop *)


(** X7: a main stream without an interrupt is read to its end: no
    response is sent to the agent, no list is recorded as approved, and
    the step count grows by the number of events that could be parsed,
    whatever the human would have answered. *)
Theorem consumeStream_without_interrupt
        (agent : list Review.HitlResponse -> list Review.StreamEvent)
        (human : list (Review.PromptAnswer * Review.PromptAnswer))
        (stream : list Review.StreamEvent) (st : Review.LoopState) :
  forallb (λ e, negb (Stream.is_interrupt e)) stream = true ->
  Stream.consumeStream agent stream human st
  = Review.StreamConsumed
      {| Review.stepCount :=
           Review.stepCount st + length (List.filter Stream.is_parsed stream);
         Review.lastApprovedCompanies := Review.lastApprovedCompanies st;
         Review.responses := Review.responses st |}.
Proof.
  revert st. induction stream as [|e rest IH]; intros st Hno.
  - cbn. rewrite Nat.add_0_r. by destruct st.
  - cbn [forallb] in Hno. apply andb_true_iff in Hno as [He Hrest].
    destruct e as [| |[[|c cs]|]]; cbn in He; try done;
      cbn [Stream.consumeStream List.filter Stream.is_parsed length];
      rewrite IH by done; cbn; do 2 f_equal; lia.
Qed.

Lemma consumeStream_without_interrupt_witness :
  Stream.consumeStream (λ _, [])
    [Review.MessagesEvent; Review.Unparsed; Review.UpdatesEvent None]
    [(Review.PromptCancel, Review.PromptCancel)] Stream.initial_state
  = Review.StreamConsumed
      {| Review.stepCount := 2;
         Review.lastApprovedCompanies := None;
         Review.responses := [] |}.
Proof.
  apply (consumeStream_without_interrupt (λ _, [])
           [(Review.PromptCancel, Review.PromptCancel)]
           [Review.MessagesEvent; Review.Unparsed; Review.UpdatesEvent None]
           Stream.initial_state eq_refl).
Defined.

(** X8: the main stream is read up to its first interrupt that carries
    companies: that list is the one put to the human, and the events that
    follow it in the main stream are never read. *)
Theorem consumeStream_stops_at_first_interrupt
        (agent : list Review.HitlResponse -> list Review.StreamEvent)
        (human : list (Review.PromptAnswer * Review.PromptAnswer))
        (before after : list Review.StreamEvent)
        (c : Review.CompanyReviewItem) (cs : list Review.CompanyReviewItem)
        (st : Review.LoopState) :
  forallb (λ e, negb (Stream.is_interrupt e)) before = true ->
  Stream.consumeStream agent
    (before ++ Review.UpdatesEvent (Some (c :: cs)) :: after) human st
  = Review.review_loop agent human (Some (c :: cs))
      {| Review.stepCount :=
           Review.stepCount st
           + length (List.filter Stream.is_parsed before) + 1;
         Review.lastApprovedCompanies := Review.lastApprovedCompanies st;
         Review.responses := Review.responses st |}.
Proof.
  revert st. induction before as [|e rest IH]; intros st Hno.
  - cbn [app Stream.consumeStream List.filter length]. f_equal.
    unfold Stream.step. f_equal. lia.
  - cbn [forallb] in Hno. apply andb_true_iff in Hno as [He Hrest].
    destruct e as [| |[[|c' cs']|]]; cbn in He; try done;
      cbn [app Stream.consumeStream List.filter Stream.is_parsed length];
      rewrite IH by done; cbn; do 2 f_equal; lia.
Qed.

Lemma consumeStream_stops_at_first_interrupt_witness :
  Stream.consumeStream (λ _, [])
    [Review.MessagesEvent; Review.UpdatesEvent (Some [Samples.acme]);
     Review.UpdatesEvent (Some [Samples.acme; Samples.acme])]
    [] Stream.initial_state
  = Review.AwaitingHuman [Samples.acme]
      {| Review.stepCount := 2;
         Review.lastApprovedCompanies := None;
         Review.responses := [] |}.
Proof.
  etrans;
    [exact (consumeStream_stops_at_first_interrupt (λ _, []) []
              [Review.MessagesEvent]
              [Review.UpdatesEvent (Some [Samples.acme; Samples.acme])]
              Samples.acme [] Stream.initial_state eq_refl)
    |reflexivity].
Defined.

(** X9: the review loop answers each interrupt exactly once: the
    responses it sends to the agent are the answers of the human, in
    order, and each of them answers a non-empty list that was on display,
    the pending list at first and then the interrupt of the stream
    resumed with the responses so far; the loop ends only when the stream
    resumed last has no interrupt left, or, waiting for the human, when
    every answer has been used and that interrupt is on display; and the
    step count never goes down. *)
Theorem review_loop_one_response_per_answer
        (agent : list Review.HitlResponse -> list Review.StreamEvent)
        (human : list (Review.PromptAnswer * Review.PromptAnswer))
        (pending : option (list Review.CompanyReviewItem))
        (st : Review.LoopState) :
  let outcome := Review.review_loop agent human pending st in
  let shown := Stream.shown_before agent st pending human in
  exists k,
    k <= length human /\
    Review.responses (Stream.end_state outcome)
      = Review.responses st ++ (Stream.response_to <$> take k human) /\
    Review.stepCount st <= Review.stepCount (Stream.end_state outcome) /\
    (forall i, i < k -> exists l, shown i = Some l /\ l ≠ []) /\
    match outcome with
    | Review.AwaitingHuman l _ =>
        k = length human /\ l ≠ [] /\ shown k = Some l
    | Review.StreamConsumed _ => shown k = None \/ shown k = Some []
    end.
Proof.
  intros outcome shown. unfold outcome, shown. clear outcome shown.
  revert pending st.
  induction human as [|[d f] later IH]; intros pending st.
  - exists 0. destruct pending as [[|c cs]|]; cbn;
      rewrite ?app_nil_r; repeat split; auto; lia.
  - destruct pending as [[|c cs]|];
      try (exists 0; cbn; rewrite app_nil_r; repeat split; auto; lia).
    rewrite review_loop_turn. cbv zeta.
    pose proof (scan_resumed_steps
                  (agent (Review.responses st ++ [Stream.response_to (d, f)]))
                  (Review.stepCount st)) as Hle.
    match goal with
    | |- context [Review.review_loop agent later ?next ?s] =>
        destruct (IH next s) as (k & Hk & Hresp & Hsteps & Hshown & Hend);
        pose proof (λ i, shown_before_turn agent later d f
                           (Some (c :: cs)) st s i eq_refl) as Hturn
    end.
    cbn [Review.responses Review.stepCount] in *.
    exists (S k). cbn [length take fmap list_fmap].
    split; [lia|]. split; [|split; [|split]].
    + rewrite Hresp, <- app_assoc. done.
    + lia.
    + intros [|i] Hi; [by exists (c :: cs)|].
      rewrite Hturn. apply Hshown. lia.
    + rewrite Hturn.
      destruct (Review.review_loop agent later _ _); [done|].
      destruct Hend as (-> & Hl & Hk'). done.
Qed.

Lemma review_loop_one_response_per_answer_witness :
  exists k,
    k <= 2 /\
    Review.responses
      (Stream.end_state
         (Review.review_loop
            (λ _, [Review.UpdatesEvent (Some [Samples.acme])])
            [(Review.PromptValue "revise", Review.PromptValue "smaller teams");
             (Review.PromptCancel, Review.PromptCancel)]
            (Some [Samples.acme]) Stream.initial_state))
    = Stream.response_to <$>
        take k [(Review.PromptValue "revise",
                 Review.PromptValue "smaller teams");
                (Review.PromptCancel, Review.PromptCancel)].
Proof.
  destruct (review_loop_one_response_per_answer
              (λ _, [Review.UpdatesEvent (Some [Samples.acme])])
              [(Review.PromptValue "revise", Review.PromptValue "smaller teams");
               (Review.PromptCancel, Review.PromptCancel)]
              (Some [Samples.acme]) Stream.initial_state)
    as (k & Hk & Hresp & _).
  exists k. split; [exact Hk|exact Hresp].
Defined.

(** X10: a review decision is either an approval without feedback or a
    rejection with the non-empty text the human typed after choosing
    something other than approve; so the agent is never resumed with a
    rejection that has no message. *)
Theorem review_decision_shape
        (companies : list Review.CompanyReviewItem)
        (decision feedbackAnswer : Review.PromptAnswer) :
  let d := Review.promptUserForReview companies decision feedbackAnswer in
  (Review.approved d = true /\ Review.feedback d = None /\
   Review.hitlResponse_of d = Review.Approve) \/
  (exists choice text,
     decision = Review.PromptValue choice /\ choice ≠ "approve"%string /\
     feedbackAnswer = Review.PromptValue text /\ text ≠ ""%string /\
     Review.approved d = false /\ Review.feedback d = Some text /\
     Review.hitlResponse_of d = Review.Reject (Some text)).
Proof.
  intros d. unfold d, Review.promptUserForReview.
  destruct decision as [|choice]; [by left|].
  destruct (String.eqb_spec choice "approve") as [->|Hchoice]; [by left|].
  destruct feedbackAnswer as [|text]; [by left|].
  destruct (String.eqb_spec text "") as [->|Htext]; [by left|].
  right. exists choice, text. by repeat split.
Qed.

(** X11: rejected proposals are never recorded as approved: when none of
    the answers of the human is an approval, the review loop leaves
    lastApprovedCompanies as it found it. *)
Theorem review_loop_rejections_approve_nothing
        (agent : list Review.HitlResponse -> list Review.StreamEvent)
        (human : list (Review.PromptAnswer * Review.PromptAnswer))
        (pending : option (list Review.CompanyReviewItem))
        (st : Review.LoopState) :
  Forall (λ answer, Stream.response_to answer ≠ Review.Approve) human ->
  Review.lastApprovedCompanies
    (Stream.end_state (Review.review_loop agent human pending st))
  = Review.lastApprovedCompanies st.
Proof.
  intros Hrej. revert pending st.
  induction Hrej as [|[d f] later Hd _ IH]; intros pending st.
  - by destruct pending as [[|c cs]|].
  - destruct pending as [[|c cs]|]; cbn [Review.review_loop]; try done.
    destruct (Review.scan_resumed _ _) as [steps next].
    rewrite IH. cbn [Review.lastApprovedCompanies].
    unfold Stream.response_to, Review.hitlResponse_of in Hd. cbn [fst snd] in Hd.
    rewrite (prompt_ignores_companies (c :: cs)).
    by destruct (Review.approved (Review.promptUserForReview [] d f)).
Qed.

Lemma review_loop_rejections_approve_nothing_witness :
  Review.lastApprovedCompanies
    (Stream.end_state
       (Review.review_loop
          (λ _, [Review.UpdatesEvent (Some [Samples.acme])])
          [(Review.PromptValue "revise", Review.PromptValue "smaller teams");
           (Review.PromptValue "revise", Review.PromptValue "other industry")]
          (Some [Samples.acme]) Stream.initial_state))
  = None.
Proof.
  apply (review_loop_rejections_approve_nothing
           (λ _, [Review.UpdatesEvent (Some [Samples.acme])])
           [(Review.PromptValue "revise", Review.PromptValue "smaller teams");
            (Review.PromptValue "revise", Review.PromptValue "other industry")]
           (Some [Samples.acme]) Stream.initial_state).
  repeat constructor; discriminate.
Defined.

(** X12: a rejection followed by an approval resumes the agent twice,
    first with the rejection and its feedback, then with the approval,
    and records as approved the list proposed after the rejection, not
    the rejected one. *)
Theorem review_loop_reject_then_approve
        (agent : list Review.HitlResponse -> list Review.StreamEvent)
        (later : list (Review.PromptAnswer * Review.PromptAnswer))
        (first second : list Review.CompanyReviewItem)
        (text : string) (answer : Review.PromptAnswer)
        (steps1 steps2 : nat) :
  first ≠ [] -> second ≠ [] -> text ≠ ""%string ->
  Review.scan_resumed (agent [Review.Reject (Some text)]) 0
    = (steps1, Some second) ->
  Review.scan_resumed
    (agent [Review.Reject (Some text); Review.Approve]) steps1
    = (steps2, None) ->
  Review.review_loop agent
    ((Review.PromptValue "revise", Review.PromptValue text)
       :: (Review.PromptValue "approve", answer) :: later)
    (Some first) Stream.initial_state
  = Review.StreamConsumed
      {| Review.stepCount := steps2;
         Review.lastApprovedCompanies := Some second;
         Review.responses := [Review.Reject (Some text); Review.Approve] |}.
Proof.
  intros Hfirst Hsecond Htext Hscan1 Hscan2.
  destruct first as [|c cs]; [done|]. destruct second as [|c2 cs2]; [done|].
  cbn [Review.review_loop Review.promptUserForReview String.eqb Ascii.eqb
       Bool.eqb Stream.initial_state Review.responses Review.stepCount
       Review.lastApprovedCompanies app].
  destruct (String.eqb_spec text "") as [->|_]; [done|].
  cbn [Review.hitlResponse_of Review.approved Review.feedback].
  rewrite Hscan1.
  cbn [Review.review_loop Review.promptUserForReview String.eqb Ascii.eqb
       Bool.eqb Review.responses Review.stepCount
       Review.lastApprovedCompanies app Review.hitlResponse_of
       Review.approved Review.approve].
  rewrite Hscan2. by destruct later.
Qed.

Lemma review_loop_reject_then_approve_witness :
  Review.review_loop
    (λ sent, match sent with
             | [_] => [Review.MessagesEvent;
                       Review.UpdatesEvent (Some [Samples.acme; Samples.acme])]
             | _ => [Review.MessagesEvent]
             end)
    [(Review.PromptValue "revise", Review.PromptValue "smaller teams");
     (Review.PromptValue "approve", Review.PromptCancel)]
    (Some [Samples.acme]) Stream.initial_state
  = Review.StreamConsumed
      {| Review.stepCount := 3;
         Review.lastApprovedCompanies := Some [Samples.acme; Samples.acme];
         Review.responses :=
           [Review.Reject (Some "smaller teams"); Review.Approve] |}.
Proof.
  apply (review_loop_reject_then_approve
           (λ sent, match sent with
                    | [_] => [Review.MessagesEvent;
                              Review.UpdatesEvent
                                (Some [Samples.acme; Samples.acme])]
                    | _ => [Review.MessagesEvent]
                    end)
           [] [Samples.acme] [Samples.acme; Samples.acme]
           "smaller teams" Review.PromptCancel 2 3);
    first [discriminate | reflexivity].
Defined.

(** ** Trimming and printing *)

Section TextFacts.

(** White space beyond ASCII is trimmed as well, and only white space:
    U+00A0 and U+3000 go, the euro sign (E2 82 AC) stays. *)
Example trim_unicode_space :
  Js.trim (Samples.nbsp ++ " Ada Lovelace" ++ Samples.ideographic_space
           ++ Samples.nbsp) = "Ada Lovelace"%string /\
  Js.trim (Samples.ideographic_space ++ "€ 5" ++ Samples.nbsp)
    = "€ 5"%string /\
  Hunter.name (Hunter.to_person
                 {| Hunter.first_name := Some (Samples.nbsp ++ "Ada")%string;
                    Hunter.last_name := None;
                    Hunter.position := None;
                    Hunter.value := Some "ada@acme.com"%string |})
    = "Ada"%string.
Proof. repeat split; vm_compute; reflexivity. Qed.

Lemma string_app_cons (c : Ascii.ascii) (s t : string) :
  (String c s ++ t)%string = String c (s ++ t)%string.
Proof. reflexivity. Qed.


(** How a leading white space character is recognised. *)
Lemma leading_space_inv (s r : string) :
  Js.leading_space s = Some r ->
  (exists a, s = String a r) \/
  (exists a b, s = String a (String b r)) \/
  (exists a b c, s = String a (String b (String c r))).
Proof.
  unfold Js.leading_space.
  destruct s as [|a [|b [|c s3]]]; try done;
    repeat match goal with
           | |- context [if ?t then _ else _] => destruct t
           end;
    intros [= <-]; eauto 6.
Qed.

Lemma leading_space_length (s r : string) :
  Js.leading_space s = Some r -> String.length r < String.length s.
Proof.
  intros [(a & ->)|[(a & b & ->)|(a & b & c & ->)]]%leading_space_inv;
    cbn; lia.
Qed.

Lemma trim_start_cons (a : Ascii.ascii) (s1 : string) :
  Js.trim_start (String a s1)
  = if Js.is_space a then Js.trim_start s1
    else
      match s1 with
      | String b s2 =>
          if Js.is_space2 a b then Js.trim_start s2
          else
            match s2 with
            | String c s3 =>
                if Js.is_space3 a b c then Js.trim_start s3 else String a s1
            | EmptyString => String a s1
            end
      | EmptyString => String a s1
      end.
Proof. reflexivity. Qed.

Lemma trim_start_unfold (s : string) :
  Js.trim_start s
  = match Js.leading_space s with
    | Some r => Js.trim_start r
    | None => s
    end.
Proof.
  destruct s as [|a s1]; [reflexivity|].
  rewrite trim_start_cons. unfold Js.leading_space.
  destruct (Js.is_space a); [reflexivity|].
  destruct s1 as [|b s2]; [reflexivity|].
  destruct (Js.is_space2 a b); [reflexivity|].
  destruct s2 as [|c s3]; [reflexivity|].
  destruct (Js.is_space3 a b c); reflexivity.
Qed.

Lemma trim_start_length (s : string) :
  String.length (Js.trim_start s) <= String.length s.
Proof.
  remember (String.length s) as n eqn:Hn. revert s Hn.
  induction (lt_wf n) as [n _ IH]; intros s ->.
  rewrite trim_start_unfold.
  destruct (Js.leading_space s) as [r|] eqn:E; [|done].
  apply leading_space_length in E.
  specialize (IH _ E r eq_refl). lia.
Qed.

(** A string is left alone exactly when it does not start with white
    space. *)
Lemma trim_start_fixed (s : string) :
  Js.trim_start s = s <-> Js.leading_space s = None.
Proof.
  rewrite trim_start_unfold.
  destruct (Js.leading_space s) as [r|] eqn:E; [|done].
  split; [|done]. intros H.
  pose proof (trim_start_length r) as Hlen.
  apply leading_space_length in E. rewrite H in Hlen. lia.
Qed.

Lemma trim_start_clean (s : string) :
  Js.leading_space (Js.trim_start s) = None.
Proof.
  remember (String.length s) as n eqn:Hn. revert s Hn.
  induction (lt_wf n) as [n _ IH]; intros s ->.
  rewrite trim_start_unfold.
  destruct (Js.leading_space s) as [r|] eqn:E; [|done].
  eapply IH; [|done]. by apply leading_space_length.
Qed.

Lemma trim_start_idem (s : string) :
  Js.trim_start (Js.trim_start s) = Js.trim_start s.
Proof. apply trim_start_fixed, trim_start_clean. Qed.

Lemma leading_space_app (p q r : string) :
  Js.leading_space p = Some r ->
  Js.leading_space (p ++ q) = Some (r ++ q)%string.
Proof.
  unfold Js.leading_space.
  destruct p as [|a [|b [|c s3]]]; try done;
    rewrite ?string_app_cons;
    repeat match goal with
           | |- context [if ?t then _ else _] => destruct t
           end;
    try done; by intros [= <-].
Qed.

Lemma is_blank_spec (s : string) :
  Js.is_blank s = true <-> Js.trim_start s = ""%string.
Proof. unfold Js.is_blank. apply String.eqb_eq. Qed.

(** White space followed by white space is white space. *)
Lemma trim_start_blank_app (p q : string) :
  Js.trim_start p = ""%string -> Js.trim_start q = ""%string ->
  Js.trim_start (p ++ q) = ""%string.
Proof.
  remember (String.length p) as n eqn:Hn. revert p Hn.
  induction (lt_wf n) as [n _ IH]; intros p -> Hp Hq.
  rewrite trim_start_unfold in Hp.
  destruct (Js.leading_space p) as [r|] eqn:E.
  - rewrite trim_start_unfold, (leading_space_app p q r E).
    eapply IH; [|done|done|done]. by apply leading_space_length.
  - by subst p.
Qed.

Lemma trim_end_cons (c : Ascii.ascii) (s : string) :
  Js.trim_end (String c s)
  = if Js.is_blank (String c s) then EmptyString
    else String c (Js.trim_end s).
Proof. reflexivity. Qed.

(** What [trim_end] removes is a tail of white space. *)
Lemma trim_end_split (s : string) :
  exists q, s = (Js.trim_end s ++ q)%string /\ Js.trim_start q = ""%string.
Proof.
  induction s as [|c s (q & Hs & Hq)]; [by exists ""%string|].
  rewrite trim_end_cons.
  destruct (Js.is_blank (String c s)) eqn:E.
  - exists (String c s). split; [done|]. by apply is_blank_spec.
  - exists q. split; [|done]. by rewrite string_app_cons, <- Hs.
Qed.

Lemma trim_end_idem (s : string) :
  Js.trim_end (Js.trim_end s) = Js.trim_end s.
Proof.
  induction s as [|c s IH]; [done|]. rewrite trim_end_cons.
  destruct (Js.is_blank (String c s)) eqn:E; [done|].
  rewrite trim_end_cons, IH.
  destruct (Js.is_blank (String c (Js.trim_end s))) eqn:E'; [|done].
  destruct (trim_end_split s) as (q & Hs & Hq).
  apply is_blank_spec in E'.
  pose proof (trim_start_blank_app _ _ E' Hq) as Hb.
  rewrite string_app_cons, <- Hs in Hb.
  apply is_blank_spec in Hb. congruence.
Qed.

(** Trimming the end leaves a clean start clean. *)
Lemma trim_start_trim_end (s : string) :
  Js.trim_start s = s -> Js.trim_start (Js.trim_end s) = Js.trim_end s.
Proof.
  rewrite !trim_start_fixed. intros Hs.
  destruct (Js.leading_space (Js.trim_end s)) as [r|] eqn:E; [|done].
  destruct (trim_end_split s) as (q & Heq & _).
  apply (leading_space_app _ q) in E. rewrite <- Heq in E. congruence.
Qed.

Lemma trim_idem (s : string) : Js.trim (Js.trim s) = Js.trim s.
Proof.
  unfold Js.trim.
  rewrite (trim_start_trim_end (Js.trim_start s)) by apply trim_start_idem.
  apply trim_end_idem.
Qed.

(** A trimmed string neither starts nor ends with white space. *)
Lemma trim_clean (s : string) :
  Js.trim_start (Js.trim s) = Js.trim s /\ Js.trim_end (Js.trim s) = Js.trim s.
Proof.
  unfold Js.trim. split; [|apply trim_end_idem].
  apply trim_start_trim_end, trim_start_idem.
Qed.

Lemma trim_start_chars (s : string) (c : Ascii.ascii) :
  In c (String.list_ascii_of_string (Js.trim_start s)) ->
  In c (String.list_ascii_of_string s).
Proof.
  remember (String.length s) as n eqn:Hn. revert s Hn.
  induction (lt_wf n) as [n _ IH]; intros s ->.
  rewrite trim_start_unfold.
  destruct (Js.leading_space s) as [r|] eqn:E; [|done].
  intros Hc. apply (IH _ (leading_space_length _ _ E) r eq_refl) in Hc.
  apply leading_space_inv in E
    as [(a & ->)|[(a & b & ->)|(a & b & d & ->)]]; cbn; auto.
Qed.

Lemma trim_end_chars (s : string) (c : Ascii.ascii) :
  In c (String.list_ascii_of_string (Js.trim_end s)) ->
  In c (String.list_ascii_of_string s).
Proof.
  induction s as [|a s IH]; [done|]. rewrite trim_end_cons.
  destruct (Js.is_blank (String a s)); [done|].
  cbn. intros [<-|H]; [by left|]. right. by apply IH.
Qed.

Lemma pretty_N_go_length (x : N) (s : string) :
  String.length s <= String.length (pretty_N_go x s).
Proof.
  revert s. induction (N.lt_wf_0 x) as [x _ IH]; intros s.
  destruct (decide (x = 0)%N) as [->|Hx]; [by rewrite pretty_N_go_0|].
  rewrite pretty_N_go_step by lia.
  etrans; [|apply IH; apply N.div_lt; lia]. cbn. lia.
Qed.

Lemma pretty_Z_nonempty (z : Z) : pretty z ≠ ""%string.
Proof.
  assert (forall p : positive, pretty p ≠ ""%string) as Hpos.
  { intros p. unfold pretty, pretty_positive, pretty, pretty_N.
    destruct (decide (N.pos p = 0)%N); [done|].
    rewrite pretty_N_go_step by lia.
    intros H. pose proof (pretty_N_go_length (N.pos p `div` 10)
      (String (pretty_N_char (N.pos p `mod` 10)) "")) as Hlen.
    rewrite H in Hlen. cbn in Hlen. lia. }
  destruct z as [|p|p]; [done|apply Hpos|done].
Qed.

End TextFacts.

(** ** More on people_lookup *)

(** X13: whatever is configured and whatever the backend sends,
    people_lookup never returns more people than the effective limit,
    hence never more than 100, and the total it reports is the number of
    people it returns: at least one in the success result, zero in the
    failure result. *)
Theorem people_lookup_at_most_limit
        (env_key : option string)
        (fetch : list (string * string) -> Hunter.FetchOutcome)
        (contactsLimit : option Z) (domain company : option string)
        (r : Hunter.LookupResult) :
  Hunter.people_lookup env_key fetch contactsLimit domain company
    = Hunter.Returned r ->
  (Z.of_nat (length (Hunter.result_people r))
     <= Hunter.effective_limit contactsLimit)%Z /\
  length (Hunter.result_people r) <= 100 /\
  match r with
  | Hunter.LookupSuccess _ _ people total =>
      total = length people /\ 1 <= total
  | Hunter.LookupFailure _ _ _ _ people total => total = 0 /\ people = []
  end.
Proof.
  intros Hr.
  pose proof (people_lookup_cases env_key fetch contactsLimit domain company)
    as Hc.
  cbv zeta in Hc. rewrite Hr in Hc.
  pose proof (effective_limit_bounds contactsLimit) as Hb.
  destruct r as [err msg c d people total|c d people total]; cbn.
  - destruct Hc as (_ & -> & -> & _). cbn. repeat split; lia.
  - destruct Hc as (Hne & -> & data & _ & Hp).
    assert (length people
            = Z.to_nat (Hunter.effective_limit contactsLimit)
              `min` length (from_option Hunter.emails [] data)) as Hlen
      by (by rewrite Hp, length_fmap, length_take).
    destruct people as [|p ps]; [done|]. cbn [length] in *.
    repeat split; lia.
Qed.

Lemma people_lookup_at_most_limit_witness :
  exists r,
    Hunter.people_lookup (Some "key") Samples.fetch_one (Some 1%Z)
                         (Some "acme.com") None = Hunter.Returned r /\
    length (Hunter.result_people r) <= 100.
Proof.
  eexists. split; [reflexivity|].
  apply (people_lookup_at_most_limit (Some "key") Samples.fetch_one (Some 1%Z)
           (Some "acme.com") None _ eq_refl).
Defined.

(** X14: the people returned are the first contacts of the backend's
    answer, one for each, in its order and with its e-mail addresses; the
    title of each is the position the backend gives, and Unknown when it
    gives none or an empty one, so it is never empty; the name neither
    starts nor ends with white space. *)
Theorem people_lookup_keeps_contacts
        (env_key : option string)
        (fetch : list (string * string) -> Hunter.FetchOutcome)
        (contactsLimit : option Z) (domain company : option string)
        (r : Hunter.LookupResult) :
  Hunter.people_lookup env_key fetch contactsLimit domain company
    = Hunter.Returned r ->
  exists data,
    fetch (Hunter.request_for (Hunter.effective_limit contactsLimit)
                              domain company) = Hunter.OkJson data /\
    Hunter.email <$> Hunter.result_people r
      = Hunter.value <$>
          take (Z.to_nat (Hunter.effective_limit contactsLimit))
               (from_option Hunter.emails [] data) /\
    (forall i e,
       take (Z.to_nat (Hunter.effective_limit contactsLimit))
            (from_option Hunter.emails [] data) !! i = Some e ->
       exists p,
         Hunter.result_people r !! i = Some p /\
         Hunter.email p = Hunter.value e /\
         (Js.truthy (Hunter.position e) = false ->
          Hunter.title p = "Unknown"%string) /\
         (forall t, Hunter.position e = Some t -> t ≠ ""%string ->
                    Hunter.title p = t)) /\
    forall p, p ∈ Hunter.result_people r ->
      Hunter.title p ≠ ""%string /\
      Js.trim (Hunter.name p) = Hunter.name p /\
      Js.leading_space (Hunter.name p) = None /\
      Js.trim_end (Hunter.name p) = Hunter.name p.
Proof.
  intros Hr.
  pose proof (people_lookup_cases env_key fetch contactsLimit domain company)
    as Hc.
  cbv zeta in Hc. rewrite Hr in Hc.
  assert (exists data,
            fetch (Hunter.request_for (Hunter.effective_limit contactsLimit)
                                      domain company) = Hunter.OkJson data /\
            Hunter.result_people r
            = Hunter.to_person <$>
                take (Z.to_nat (Hunter.effective_limit contactsLimit))
                     (from_option Hunter.emails [] data))
    as (data & Hf & Hpeople).
  { destruct r as [err msg c d people total|c d people total]; cbn.
    - destruct Hc as (_ & -> & _ & data & Hf & Hnil).
      exists data. split; [done|]. by rewrite Hnil, take_nil.
    - destruct Hc as (_ & _ & data & Hf & ->). by exists data. }
  exists data. split; [done|]. rewrite Hpeople. split; [|split].
  - rewrite <- list_fmap_compose. by apply list_fmap_ext.
  - intros i e Hi. exists (Hunter.to_person e).
    split; [by rewrite list_lookup_fmap, Hi|]. split; [done|].
    unfold Hunter.to_person, Js.or_lit, Js.truthy. cbn [Hunter.title].
    split.
    + destruct (Hunter.position e) as [t|]; [|done].
      by destruct (String.eqb t "").
    + intros t -> Ht. by destruct (String.eqb_spec t "").
  - intros p (e & -> & _)%list_elem_of_fmap. split; [|split; [|split]].
    + unfold Hunter.to_person, Js.or_lit. cbn.
      destruct (Hunter.position e) as [t|]; [|done].
      by destruct (String.eqb_spec t "").
    + apply trim_idem.
    + apply trim_start_fixed, trim_clean.
    + apply trim_clean.
Qed.

Lemma people_lookup_keeps_contacts_witness :
  exists r,
    Hunter.people_lookup (Some "key") Samples.fetch_one None
                         (Some "acme.com") None = Hunter.Returned r /\
    Hunter.email <$> Hunter.result_people r
      = [Some "ada@acme.com"; Some "bob@acme.com"]%string.
Proof.
  eexists. split; [reflexivity|].
  destruct (people_lookup_keeps_contacts (Some "key") Samples.fetch_one None
              (Some "acme.com") None _ eq_refl) as (data & Hf & Hemails & _).
  rewrite Hemails. injection Hf as <-. reflexivity.
Defined.

(** X15: the query sent to Hunter always carries the limit and
    department=it, carries the domain (the company) exactly when one is
    given and not empty, never holds an empty value, and holds no key
    twice. *)
Theorem request_query_is_clean
        (limit : Z) (domain company : option string) :
  let q := Hunter.request_for limit domain company in
  ("limit"%string, pretty limit) ∈ q /\
  ("department", "it")%string ∈ q /\
  (forall d, ("domain"%string, d) ∈ q <-> domain = Some d /\ d ≠ ""%string) /\
  (forall c, ("company"%string, c) ∈ q <-> company = Some c /\ c ≠ ""%string) /\
  (forall k v, (k, v) ∈ q -> v ≠ ""%string) /\
  NoDup (fst <$> q).
Proof.
  intros q. unfold q, Hunter.request_for, Hunter.buildHunterUrl.
  cbn [Hunter.rp_domain Hunter.rp_company Hunter.rp_limit Hunter.rp_department].
  pose proof (pretty_Z_nonempty limit) as Hp.
  assert (forall key v k w,
            (k, w) ∈ Hunter.query_entry key v <->
            k = key /\ v = Some w /\ w ≠ ""%string) as Hentry.
  { intros key v k w. unfold Hunter.query_entry.
    destruct v as [s|]; [destruct (String.eqb_spec s "") as [->|Hs]|].
    - split; [by intros ?%elem_of_nil|]. by intros (_ & [= <-] & ?).
    - rewrite list_elem_of_singleton.
      split; [by intros [= -> ->]|]. by intros (-> & [= ->] & _).
    - split; [by intros ?%elem_of_nil|]. by intros (_ & [=] & _). }
  split; [|split; [|split; [|split; [|split]]]].
  - apply elem_of_app; right. apply elem_of_app; right.
    apply elem_of_app; left. apply list_elem_of_here.
  - apply elem_of_app; right. apply elem_of_app; right.
    apply elem_of_app; right. apply Hentry. done.
  - intros d. rewrite !elem_of_app, list_elem_of_singleton, !Hentry.
    split; [intros [(_ & ? & ?)|[(? & _)|[[=]|(? & _)]]]; done
           |intros [? ?]; left; done].
  - intros c. rewrite !elem_of_app, list_elem_of_singleton, !Hentry.
    split; [intros [(? & _)|[(_ & ? & ?)|[[=]|(? & _)]]]; done
           |intros [? ?]; right; left; done].
  - intros k v. rewrite !elem_of_app, list_elem_of_singleton, !Hentry.
    intros [(_ & _ & ?)|[(_ & _ & ?)|[[= _ ->]|(_ & _ & ?)]]]; done.
  - unfold Hunter.query_entry.
    destruct domain as [d|], company as [c|];
      repeat match goal with
             | |- context [String.eqb ?s ""] => destruct (String.eqb s "")
             end;
      refine (bool_decide_unpack _ _); vm_compute; exact I.
Qed.

(** ** More on sendEmails *)

Section GmailPrefix.

Import Gmail.

Variable smtp : Transport.
Variable onProgress : option Progress.

(** Whatever the callback does, each turn of the loop hands one mail to
    the transport and adds one or two results. *)
Lemma send_loop_prefix (config : Config) (total : nat)
      (messages : list EmailMessage) :
  forall (outbox : Outbox) (results : list EmailResult),
  exists k,
    k <= length messages /\
    fst (send_loop smtp onProgress config total messages outbox results)
      = outbox ++ (mail_of config <$> take k messages) /\
    match snd (send_loop smtp onProgress config total messages outbox results)
    with
    | Done rs =>
        k = length messages /\
        length results + length messages <= length rs
          <= length results + 2 * length messages
    | Threw _ => 0 < k
    end.
Proof.
  induction messages as [|m rest IH]; intros outbox results.
  - exists 0. cbn. rewrite app_nil_r. repeat split; lia.
  - cbn [send_loop].
    assert (forall rs,
              length results + 1 <= length rs <= length results + 2 ->
              exists k,
                k <= length (m :: rest) /\
                fst (send_loop smtp onProgress config total rest
                       (outbox ++ [mail_of config m]) rs)
                  = outbox ++ (mail_of config <$> take k (m :: rest)) /\
                match snd (send_loop smtp onProgress config total rest
                             (outbox ++ [mail_of config m]) rs)
                with
                | Done rs' =>
                    k = length (m :: rest) /\
                    length results + length (m :: rest) <= length rs'
                      <= length results + 2 * length (m :: rest)
                | Threw _ => 0 < k
                end) as Hnext.
    { intros rs Hrs.
      destruct (IH (outbox ++ [mail_of config m]) rs) as (k & Hk & Hout & Hres).
      exists (S k). cbn [length take fmap list_fmap].
      split; [lia|]. split; [by rewrite Hout, <- app_assoc|].
      destruct (snd (send_loop _ _ _ _ _ _ _)); [lia|].
      destruct Hres as [-> Hlen]. split; [done|]. cbn [length] in *. lia. }
    unfold attempt.
    destruct (smtp outbox (mail_of config m)) as [mid|e].
    + destruct (notify onProgress (ok_result m mid) _ total) as [e'|].
      * destruct (notify onProgress (failed_result m e') _ total) as [e''|].
        -- exists 1. cbn. repeat split; lia.
        -- apply Hnext. rewrite !length_app. cbn. lia.
      * apply Hnext. rewrite length_app. cbn. lia.
    + destruct (notify onProgress (failed_result m e) _ total) as [e'|].
      * exists 1. cbn. repeat split; lia.
      * apply Hnext. rewrite length_app. cbn. lia.
Qed.

End GmailPrefix.

(** X16: whatever the progress callback does, sendEmails never hands a
    message to the transport twice or out of order: the mails it sends
    are those of the first k messages, in input order. When it returns,
    every message was handed over and there are at least one and at most
    two results per message; it raises only after the first mail, or
    before any mail when the credentials are missing and the list is not
    empty. *)
Theorem sendEmails_sends_a_prefix
        (smtp : Gmail.Transport) (onProgress : option Gmail.Progress)
        (env : Gmail.Env) (messages : list Gmail.EmailMessage)
        (outbox : Gmail.Outbox) :
  let run := Gmail.sendEmails smtp onProgress env messages outbox in
  match Gmail.getGmailConfig env with
  | inr config =>
      exists k,
        k <= length messages /\
        fst run = outbox ++ (Gmail.mail_of config <$> take k messages) /\
        match snd run with
        | Gmail.Done results =>
            k = length messages /\
            length messages <= length results <= 2 * length messages
        | Gmail.Threw _ => 0 < k
        end
  | inl e =>
      fst run = outbox /\
      (messages = [] /\ snd run = Gmail.Done [] \/
       messages ≠ [] /\ snd run = Gmail.Threw e)
  end.
Proof.
  intros run. unfold run, Gmail.sendEmails.
  destruct messages as [|m rest].
  - cbn. destruct (Gmail.getGmailConfig env) as [e|config].
    + split; [done|]. by left.
    + exists 0. cbn. rewrite app_nil_r. repeat split; lia.
  - cbn [length Nat.eqb].
    destruct (Gmail.getGmailConfig env) as [e|config].
    + split; [done|]. by right.
    + destruct (send_loop_prefix smtp onProgress config (S (length rest))
                  (m :: rest) outbox []) as (k & Hk & Hout & Hres).
      exists k. split; [done|]. split; [done|].
      destruct (snd (Gmail.send_loop _ _ _ _ _ _ _)); [done|].
      cbn [length] in *. lia.
Qed.

(** ** More on sendPendingQueue *)

Section CliMore.

Import Cli.

Lemma count_where_split {A : Type} (p : A -> bool) (l : list A) :
  count_where p l + count_where (λ x, negb (p x)) l = length l.
Proof.
  unfold count_where. induction l as [|x l IH]; cbn; [done|].
  destruct (p x); cbn; lia.
Qed.

(** The write-back touches the send status of an entry and nothing
    else. *)
Lemma update_draft_keeps_content (ctx : SendContext)
      (pendingDrafts : list DraftEntry) (results : list Gmail.EmailResult)
      (d d' : DraftEntry) :
  update_draft ctx pendingDrafts results d = inr d' ->
  id d' = id d /\ contact d' = contact d /\ company d' = company d /\
  subject d' = subject d /\ body d' = body d /\
  personalization_notes d' = personalization_notes d.
Proof.
  unfold update_draft.
  destruct (findIndex_by_id pendingDrafts d) as [j|]; [|by intros [= <-]].
  destruct (results !! j) as [r|]; [|done].
  destruct (Gmail.success r); intros [= <-]; by repeat split.
Qed.

End CliMore.

(** X17: drafts.json is rewritten only by a send phase that completes:
    when the invocation stops early, is cancelled or raises, the file is
    left exactly as it was. When it completes, the sent and failed counts
    it reports add up to the number of mails handed to the transport,
    one for each pending draft that has an address, a subject and a
    body. *)
Theorem sendPendingQueue_rewrites_on_completion_only
        (ctx : Cli.SendContext) (file file' : Cli.DraftsFile)
        (outbox outbox' : Gmail.Outbox) (report : Cli.SendReport) :
  Cli.sendPendingQueue ctx file outbox = (file', outbox', report) ->
  ((forall s f, report ≠ Cli.Completed s f) -> file' = file) /\
  (forall s f, report = Cli.Completed s f ->
     length outbox' = length outbox + (s + f) /\
     s + f = length (Cli.build_messages ctx (Cli.pending_of file)) /\
     0 < s + f).
Proof.
  intros Hrun.
  apply sendPendingQueue_inv in Hrun
    as [(-> & -> & Hnc & _)
       |(config & entries & results & Hcfg & _ & -> & _ & Hmsgs & -> & Hsent
         & Hupd)].
  - split; [done|]. intros s f ->. by destruct (Hnc s f).
  - destruct (sendEmails_printer ctx config
                (Cli.build_messages ctx (Cli.pending_of (Cli.Drafts entries)))
                outbox Hcfg) as (results' & Hsend & Hlen).
    rewrite Hsend in Hsent. injection Hsent as ->.
    destruct (Cli.map_throwing _ entries) as [e|updated].
    + destruct Hupd as [-> ->]. split; [done|]. intros s f [=].
    + destruct Hupd as [-> ->]. split.
      * intros Hnc. by destruct (Hnc _ _ eq_refl).
      * intros s f [= <- <-]. rewrite count_where_split, Hlen.
        rewrite length_app, length_fmap.
        split; [done|]. split; [done|].
        destruct (Cli.build_messages ctx _); [done|]. cbn. lia.
Qed.

Lemma sendPendingQueue_rewrites_on_completion_only_witness :
  length [Samples.mail_ann; Samples.mail_bob] = 0 + (1 + 1).
Proof.
  apply (proj2 (sendPendingQueue_rewrites_on_completion_only
                  (Samples.send_ctx Samples.smtp_rejects_first)
                  (Cli.Drafts [Samples.draft_ann; Samples.draft_bob])
                  _ [] [Samples.mail_ann; Samples.mail_bob]
                  (Cli.Completed 1 1) eq_refl) 1 1 eq_refl).
Defined.

(** X18: a completed send phase keeps every entry in its place and
    changes nothing of it but the send status: the id, the contact, the
    company, the subject, the body and the personalization notes of each
    entry are written back as they were read. *)
Theorem sendPendingQueue_keeps_draft_content
        (ctx : Cli.SendContext) (entries entries' : list Cli.DraftEntry)
        (outbox outbox' : Gmail.Outbox) (report : Cli.SendReport) :
  Cli.sendPendingQueue ctx (Cli.Drafts entries) outbox
    = (Cli.Drafts entries', outbox', report) ->
  length entries' = length entries /\
  forall i d', entries' !! i = Some d' ->
    exists d, entries !! i = Some d /\
      Cli.id d' = Cli.id d /\ Cli.contact d' = Cli.contact d /\
      Cli.company d' = Cli.company d /\ Cli.subject d' = Cli.subject d /\
      Cli.body d' = Cli.body d /\
      Cli.personalization_notes d' = Cli.personalization_notes d.
Proof.
  intros Hrun.
  apply sendPendingQueue_inv in Hrun
    as [([= ->] & _)
       |(config & entries0 & results & _ & _ & [= <-] & _ & _ & _ & _ & Hupd)].
  - split; [done|]. intros i d' Hd'. exists d'. by repeat split.
  - destruct (Cli.map_throwing _ entries) as [e|updated] eqn:Hmap.
    + destruct Hupd as [[= ->] _]. split; [done|].
      intros i d' Hd'. exists d'. by repeat split.
    + destruct Hupd as [[= ->] _].
      apply map_throwing_inr in Hmap as [Hlen Hnth].
      split; [done|]. intros i d' Hd'.
      destruct (lookup_lt_is_Some_2 entries i) as [d Hd].
      { rewrite <- Hlen. by eapply lookup_lt_Some. }
      destruct (Hnth i d Hd) as (d'' & Hupd & Hd'').
      assert (d'' = d') as -> by congruence.
      exists d. split; [done|]. by eapply update_draft_keeps_content.
Qed.

Lemma sendPendingQueue_keeps_draft_content_witness :
  length [Samples.draft_ann_failed] = length [Samples.draft_ann].
Proof.
  apply (sendPendingQueue_keeps_draft_content
           (Samples.send_ctx Samples.smtp_rejects_first)
           [Samples.draft_ann] [Samples.draft_ann_failed]
           [] [Samples.mail_ann] (Cli.Completed 0 1) eq_refl).
Defined.

(** X19: when the drafts have distinct ids and every pending draft has an
    address, a subject and a body, a confirmed send with credentials
    completes and records for each draft the outcome of its own mail:
    delivered, it becomes sent with the transport's message id and the
    timestamp; rejected, it becomes failed with the error text (Unknown
    error when the text is empty). Entries that were not drafts are
    written back unchanged. *)
Theorem write_back_records_own_delivery
        (ctx : Cli.SendContext) (entries : list Cli.DraftEntry)
        (config : Gmail.Config) (outbox : Gmail.Outbox) :
  NoDup (Cli.id <$> entries) ->
  (forall d, d ∈ Cli.pending_drafts entries ->
     Cli.has_required_fields d = true) ->
  Gmail.getGmailConfig (Cli.env ctx) = inr config ->
  Cli.skipConfirm ctx = true \/ Cli.confirmed ctx = Cli.ConfirmValue true ->
  Cli.pending_drafts entries ≠ [] ->
  exists updated s f,
    Cli.sendPendingQueue ctx (Cli.Drafts entries) outbox
    = (Cli.Drafts updated,
       outbox ++ (Gmail.mail_of config <$>
                    (Cli.message_of ctx <$> Cli.pending_drafts entries)),
       Cli.Completed s f) /\
    forall i d, entries !! i = Some d ->
      (Cli.status d ≠ Some "draft"%string -> updated !! i = Some d) /\
      (Cli.status d = Some "draft"%string ->
       exists j d',
         Cli.pending_drafts entries !! j = Some d /\
         updated !! i = Some d' /\
         match Cli.smtp ctx
                 (outbox ++ (Gmail.mail_of config <$>
                    (Cli.message_of ctx <$>
                       take j (Cli.pending_drafts entries))))
                 (Gmail.mail_of config (Cli.message_of ctx d))
         with
         | Gmail.Delivered mid =>
             Cli.status d' = Some "sent"%string /\
             Cli.messageId d' = Some mid /\
             Cli.sentAt d' = Some (Cli.timestamp ctx) /\
             Cli.error d' = Cli.error d
         | Gmail.Rejected e =>
             Cli.status d' = Some "failed"%string /\
             Cli.error d'
               = Some (Js.or_lit (Some (Js.error_message e)) "Unknown error") /\
             Cli.sentAt d' = Cli.sentAt d /\
             Cli.messageId d' = Cli.messageId d
         end).
Proof.
  intros Hids Hcomplete Hcfg Hgo Hpending.
  destruct (write_back_own_result ctx entries Hids Hcomplete config outbox
              Hcfg Hgo Hpending) as (updated & s & f & Hrun & _ & Hown).
  exists updated, s, f. split; [exact Hrun|].
  intros i d Hd. destruct (Hown i d Hd) as [Hkeep Hdraft].
  split; [exact Hkeep|]. intros Hs.
  destruct (Hdraft Hs) as (j & Hj & Hupd). cbv zeta in Hupd.
  eexists j, _. split; [exact Hj|]. split; [exact Hupd|].
  destruct (Cli.smtp ctx _ _) as [mid|e]; cbn; by repeat split.
Qed.

Lemma write_back_records_own_delivery_witness :
  exists updated,
    Cli.sendPendingQueue (Samples.send_ctx Samples.smtp_rejects_first)
      (Cli.Drafts [Samples.draft_ann; Samples.draft_bob]) []
    = (Cli.Drafts updated, [Samples.mail_ann; Samples.mail_bob],
       Cli.Completed 1 1) /\
    Cli.status <$> updated = [Some "failed"; Some "sent"]%string.
Proof.
  destruct (write_back_records_own_delivery
              (Samples.send_ctx Samples.smtp_rejects_first)
              [Samples.draft_ann; Samples.draft_bob]
              Samples.gmail_config [])
    as (updated & s & f & Hrun & _).
  - refine (bool_decide_unpack _ _). vm_compute. exact I.
  - intros d Hd. vm_compute in Hd.
    repeat (apply elem_of_cons in Hd as [->|Hd]; [reflexivity|]).
    by apply elem_of_nil in Hd.
  - reflexivity.
  - by left.
  - discriminate.
  - vm_compute in Hrun. injection Hrun; intros; subst.
    eexists. split; vm_compute; reflexivity.
Defined.

(** ** More on the statistics *)

(** X20: the statistics never report more researched companies than
    selected ones, and they depend on the disk only through companies.json
    and drafts.json of the run directory. *)
Theorem statistics_bound_and_frame
        (workDir : string) (fs fs' : gmap string Pipeline.File) :
  let s := Pipeline.gatherPipelineStats workDir fs in
  Pipeline.companiesResearched s <= Pipeline.companiesSelected s /\
  (fs' !! Workspace.join workDir "companies.json"
     = fs !! Workspace.join workDir "companies.json" ->
   fs' !! Workspace.join workDir "drafts.json"
     = fs !! Workspace.join workDir "drafts.json" ->
   Pipeline.gatherPipelineStats workDir fs' = s).
Proof.
  intros s. split.
  - unfold s, Pipeline.gatherPipelineStats, Pipeline.read_drafts.
    destruct (fs !! Workspace.join workDir "companies.json")
      as [[|[| | | |entries|]]|];
      try (destruct (fs !! Workspace.join workDir "drafts.json")
             as [[|[]]|]; cbn; lia);
      try (cbn; lia).
    destruct (Pipeline.count_success entries) as [n|] eqn:Hn; [|cbn; lia].
    apply count_success_Some in Hn as ->.
    assert (length (List.filter Pipeline.has_status_success entries)
            <= length entries) as Hle.
    { clear. induction entries as [|c l IH]; cbn; [lia|].
      destruct (Pipeline.has_status_success c); cbn; lia. }
    destruct (fs !! Workspace.join workDir "drafts.json") as [[|[]]|];
      cbn; lia.
  - intros Hc Hd. unfold s, Pipeline.gatherPipelineStats, Pipeline.read_drafts.
    by rewrite Hc, Hd.
Qed.

Lemma statistics_bound_and_frame_witness :
  Pipeline.gatherPipelineStats Samples.work_dir
    (<["/home/me/outreach/storage/contacted.json"%string
         := Pipeline.Unreadable]> Samples.disk_healthy)
  = Pipeline.gatherPipelineStats Samples.work_dir Samples.disk_healthy.
Proof.
  apply (proj2 (statistics_bound_and_frame Samples.work_dir
                  Samples.disk_healthy
                  (<["/home/me/outreach/storage/contacted.json"%string
                       := Pipeline.Unreadable]> Samples.disk_healthy)));
    reflexivity.
Defined.

(** ** Paths and the custom id of a message *)

Section PathFacts.

(** [path.join] normalises: [..] steps back, [.] and empty segments
    vanish, a trailing slash is kept. *)
Example join_normalises :
  Workspace.join "/w/runs" ".." = "/w"%string /\
  Workspace.join "/w/runs" "." = "/w/runs"%string /\
  Workspace.join "/w/runs" "" = "/w/runs"%string /\
  Workspace.join "a//b" "c/" = "a/b/c/"%string /\
  Workspace.join "a" "../../b" = "../b"%string /\
  Workspace.join "" "" = "."%string /\
  Workspace.resumePdfPath "/w" = "/w/.deepreach/resume/resume.pdf"%string.
Proof. repeat split; vm_compute; reflexivity. Qed.














End PathFacts.



(** ** The lists typed in the setup wizard *)

Section InitFacts.

Lemma split_on_pieces (sep : Ascii.ascii) (s piece : string) :
  piece ∈ Text.split_on sep s ->
  forall c, In c (String.list_ascii_of_string piece) -> c ≠ sep.
Proof.
  revert piece. induction s as [|a s IH]; intros piece; cbn.
  - intros ->%list_elem_of_singleton c [].
  - destruct (Ascii.eqb_spec a sep) as [->|Ha].
    + intros [->|Hp]%elem_of_cons; [by intros c []|by apply IH].
    + destruct (Text.split_on sep s) as [|h t] eqn:E.
      * intros ->%list_elem_of_singleton c [<-|[]]. done.
      * intros [->|Hp]%elem_of_cons.
        -- intros c [<-|Hc]; [done|]. apply (IH h); [left|done].
        -- apply IH. by right.
Qed.

End InitFacts.

(** X22: every item of a list typed in the setup wizard is kept without
    white space at its start or its end, is not empty and holds no comma;
    an empty input gives the empty list. *)
Theorem parse_list_items_are_clean (raw item : string) :
  item ∈ Init.parse_list raw ->
  item ≠ ""%string /\
  Js.trim item = item /\
  Js.leading_space item = None /\
  Js.trim_end item = item /\
  (forall c, In c (String.list_ascii_of_string item) -> c ≠ Text.comma) /\
  raw ≠ ""%string.
Proof.
  unfold Init.parse_list.
  destruct (String.eqb_spec raw "") as [->|Hraw];
    [by intros ?%elem_of_nil|].
  rewrite list_elem_of_In, filter_In, <- list_elem_of_In.
  intros [(piece & -> & Hpiece)%list_elem_of_fmap Hne].
  split; [|split; [|split; [|split; [|split]]]].
  - intros Heq. by rewrite Heq in Hne.
  - apply trim_idem.
  - apply trim_start_fixed, trim_clean.
  - apply trim_clean.
  - intros c Hc. eapply split_on_pieces; [exact Hpiece|].
    by apply trim_start_chars, trim_end_chars.
  - done.
Qed.

Lemma parse_list_items_are_clean_witness :
  Init.parse_list Samples.industries_typed
    = ["AI/ML"; "Developer Tools"; "Fintech"]%string /\
  Js.trim "Developer Tools" = "Developer Tools"%string.
Proof.
  split; [vm_compute; reflexivity|].
  apply (parse_list_items_are_clean Samples.industries_typed
                                    "Developer Tools").
  vm_compute. right; left.
Defined.

(** ** web_search *)

(** X23: web_search turns every failure into a text that starts with
    Error: a missing TAVILY_API_KEY (reported without importing or calling
    the search), a failed import, a failed search; a non-empty text found
    by the search is returned as it is. *)
Theorem web_search_reports_failures_as_text
        (env_key : option string) (import : WebSearch.ImportOutcome)
        (tavily : WebSearch.SearchArgs -> WebSearch.CallOutcome)
        (q : string) (max_results : option Z) (search_topic : option string) :
  let args := {| WebSearch.maxResults := default 3%Z max_results;
                 WebSearch.tavilyApiKey := Js.interp env_key;
                 WebSearch.topic := default "general"%string search_topic;
                 WebSearch.searchDepth := "basic";
                 WebSearch.query := q |} in
  let out := WebSearch.web_search env_key import tavily q max_results
                                  search_topic in
  (Js.truthy env_key = false ->
   out = "Error: TAVILY_API_KEY environment variable not set. Cannot perform web search."%string) /\
  (Js.truthy env_key = false \/
   (exists e, import = WebSearch.ImportThrows e) \/
   (exists e, tavily args = WebSearch.CallThrows e) ->
   exists rest, out = ("Error" ++ rest)%string) /\
  (Js.truthy env_key = true -> import = WebSearch.Imported ->
   forall text, tavily args = WebSearch.CallReturns (WebSearch.TextResult text) ->
     text ≠ ""%string -> out = text).
Proof.
  intros args out. unfold out, WebSearch.web_search. fold args.
  assert (forall e, exists rest, WebSearch.on_error e = ("Error" ++ rest)%string)
    as Herr.
  { intros e. unfold WebSearch.on_error.
    destruct (Text.includes _ _); eexists; reflexivity. }
  split; [|split].
  - by intros ->.
  - destruct (Js.truthy env_key); cbn [negb].
    + intros [[=]|[[e ->]|[e He]]]; [apply Herr|].
      destruct import as [e'|]; [apply Herr|]. rewrite He. apply Herr.
    + intros _. eexists. reflexivity.
  - intros -> -> text -> Htext. cbn [negb].
    by destruct (String.eqb_spec text "").
Qed.

Lemma web_search_reports_failures_as_text_witness :
  exists rest,
    WebSearch.web_search (Some "tvly-key") WebSearch.Imported
      (λ _, WebSearch.CallThrows (Js.ErrorObject "429 Too Many Requests"))
      "Acme company" None None
    = ("Error" ++ rest)%string.
Proof.
  apply (proj1 (proj2 (web_search_reports_failures_as_text
                         (Some "tvly-key") WebSearch.Imported
                         (λ _, WebSearch.CallThrows
                                 (Js.ErrorObject "429 Too Many Requests"))
                         "Acme company" None None))).
  right; right. by eexists.
Defined.
